(** * Socratic Debate Coach: the debate graph, its state and its nodes

    A shallow embedding of
      - models/state.py        (DebateSession, the [_append] reducer),
      - agents/nodes.py        (the seven node functions),
      - graph/debate_graph.py  (MAX_ROUNDS, should_continue, build_debate_graph),
      - main.py                (the initial state of run_session),
    together with a model of the graph runtime that executes them. *)

From Stdlib Require Import List ZArith NArith Bool String Ascii Lia Permutation.
From Stdlib Require Import DecimalString Sorted.
Import ListNotations.
Open Scope Z_scope.

(** ** Python values *)

Module Py.

(** A Python [str] is a sequence of Unicode code points. *)
Definition str := list N.

(** An ASCII literal as a [str]. *)
Definition lit (s : string) : str := map N_of_ascii (list_ascii_of_string s).

Definition str_eqb (a b : str) : bool :=
  if list_eq_dec N.eq_dec a b then true else false.

(** [str(n)] for an int, as an f-string renders it. *)
Definition str_of_int (z : Z) : str := lit (NilZero.string_of_int (Z.to_int z)).

(** The code points [str.isspace] accepts; [str.strip()] removes them. *)
Definition isspace (c : N) : bool :=
  ((9 <=? c) && (c <=? 13) || (28 <=? c) && (c <=? 32)
   || (c =? 133) || (c =? 160) || (c =? 5760)
   || (8192 <=? c) && (c <=? 8202)
   || (c =? 8232) || (c =? 8233) || (c =? 8239) || (c =? 8287)
   || (c =? 12288))%N.

Fixpoint dropwhile (p : N -> bool) (s : str) : str :=
  match s with
  | [] => []
  | c :: r => if p c then dropwhile p r else s
  end.

Definition lstrip_by (p : N -> bool) (s : str) : str := dropwhile p s.
Definition rstrip_by (p : N -> bool) (s : str) : str := rev (dropwhile p (rev s)).

(** [s.strip()] *)
Definition strip (s : str) : str := rstrip_by isspace (lstrip_by isspace s).

(** [s.rstrip(chars)]: trailing code points that occur in [chars] go. *)
Definition rstrip_chars (chars s : str) : str :=
  rstrip_by (fun c => existsb (N.eqb c) chars) s.

(** [s.startswith(p)] and [s.startswith((p1, ..., pn))] *)
Fixpoint startswith (s p : str) : bool :=
  match p, s with
  | [], _ => true
  | _ :: _, [] => false
  | a :: p', b :: s' => (a =? b)%N && startswith s' p'
  end.

Definition startswith_any (s : str) (ps : list str) : bool :=
  existsb (startswith s) ps.

(** [s.split("\n")]: never empty, one more piece than there are newlines. *)
Fixpoint split_nl (s : str) : list str :=
  match s with
  | [] => [[]]
  | c :: r =>
      if (c =? 10)%N then [] :: split_nl r
      else match split_nl r with
           | [] => [[c]]
           | l :: ls => (c :: l) :: ls
           end
  end.

(** [xs[:n]] for a non-negative literal [n]. *)
Definition take {A} (n : nat) (xs : list A) : list A := firstn n xs.

(** The values [json.loads] can return.  A float is kept as its binary64
    bit pattern; only its truth value is ever inspected. *)
#[warnings="-register-all"] Inductive pyval : Type :=
| PNone
| PBool (b : bool)
| PInt (z : Z)
| PFloat (bits : Z)
| PStr (s : str)
| PList (l : list pyval)
| PDict (d : list (str * pyval)).

(** [bool(v)] *)
Definition truthy (v : pyval) : bool :=
  match v with
  | PNone => false
  | PBool b => b
  | PInt z => negb (z =? 0)
  | PFloat bits => negb (bits mod 2 ^ 63 =? 0)
  | PStr s => match s with [] => false | _ => true end
  | PList l => match l with [] => false | _ => true end
  | PDict d => match d with [] => false | _ => true end
  end.

(** [d.get(k, default)] on the items of a dict. *)
Fixpoint dict_get (d : list (str * pyval)) (k : str) (default : pyval) : pyval :=
  match d with
  | [] => default
  | (k', v) :: r => if str_eqb k' k then v else dict_get r k default
  end.

(** [d[k] = v]: an existing key keeps its place. *)
Fixpoint dict_set (d : list (str * pyval)) (k : str) (v : pyval) : list (str * pyval) :=
  match d with
  | [] => [(k, v)]
  | (k', v') :: r => if str_eqb k' k then (k', v) :: r else (k', v') :: dict_set r k v
  end.

(** [{**d, **e}] *)
Definition dict_update (d e : list (str * pyval)) : list (str * pyval) :=
  fold_left (fun acc kv => dict_set acc (fst kv) (snd kv)) e d.

(** The exceptions of a node or a reducer that the model tells apart.  It
    leaves out what Python can raise besides: the RecursionError of
    [json.loads] on deeply nested text, and the encoding errors of [print]. *)
Inductive exn : Type :=
| LLMError          (* the provider call itself failed *)
| AttributeError
| TypeError.

Inductive result (A : Type) : Type :=
| Ok (a : A)
| Raise (e : exn).
Arguments Ok {A} a.
Arguments Raise {A} e.

Definition bind {A B} (r : result A) (k : A -> result B) : result B :=
  match r with
  | Ok a => k a
  | Raise e => Raise e
  end.

End Py.

Import Py.

Notation "x <- r ;; k" := (bind r (fun x => k))
  (at level 61, r at next level, right associativity).

(** ** models/state.py *)

(** The messages the nodes build: [HumanMessage(content=...)] and
    [AIMessage(content=...)], never with an id of their own. *)
Inductive BaseMessage : Type :=
| HumanMessage (content : str)
| AIMessage (content : str).

(** A message as the session holds it. *)
Inductive Role : Type := user | agent.

Record Message : Type := {
  role : Role;
  content : str;
  sequenceId : Z
}.

(** [_append]: the reducer of the five accumulating lists. *)
Definition _append {A : Type} (existing new : list A) : list A := existing ++ new.

(** [_append] where [new] is whatever [json.loads] gave: [existing + new]
    raises TypeError unless [new] is a list. *)
Definition _append_json (existing : list pyval) (new : pyval) : result (list pyval) :=
  match new with
  | PList l => Ok (_append existing l)
  | _ => Raise TypeError
  end.

(** The reducer of [dialogue_history] is langgraph's [add_messages], which
    models/state.py imports; its code is not under src/. *)
Section AppendDistinctById.

Context {A : Type} (id : A -> Z).

(** Whether some element of the list has the id. *)
Definition has_id (i : Z) (l : list A) : bool := existsb (fun x => id x =? i) l.

(** The element that has the id of [m] gives its place to [m]. *)
Fixpoint replace_in_place (l : list A) (m : A) : list A :=
  match l with
  | [] => []
  | x :: r => if id x =? id m then m :: r else x :: replace_in_place r m
  end.

(** One incoming element: replaced in place when its id is there, appended
    when it is not. *)
Definition add_one (l : list A) (m : A) : list A :=
  if has_id (id m) l then replace_in_place l m else l ++ [m].

(** Modelled from the spec: the merge of langgraph's [add_messages], whose
    code is not under src/.  Spec 4.1, append-distinct-by-id: like append,
    but an incoming element whose id matches an existing element replaces it
    in place rather than duplicating. *)
Definition append_distinct_by_id (existing new : list A) : list A :=
  fold_left add_one new existing.

End AppendDistinctById.

(** A message that arrives without an id is given one before it is merged;
    [fresh i] is the id of the [i]-th incoming message. *)
Definition stamp (fresh : nat -> Z) (i : nat) (m : BaseMessage) : Message :=
  match m with
  | HumanMessage c => {| role := user; content := c; sequenceId := fresh i |}
  | AIMessage c => {| role := agent; content := c; sequenceId := fresh i |}
  end.

Fixpoint stamp_from (fresh : nat -> Z) (i : nat) (ms : list BaseMessage) : list Message :=
  match ms with
  | [] => []
  | m :: r => stamp fresh i m :: stamp_from fresh (S i) r
  end.

(** Modelled from the spec: langgraph's [add_messages] on the messages of a
    node, which come without ids; its code is not under src/.  The ids are
    stamped, then the messages are merged by append-distinct-by-id (spec
    3: a Message has a role, a content and a sequenceId; spec 4.1). *)
Definition add_messages (fresh : nat -> Z) (left : list Message) (right : list BaseMessage)
  : list Message :=
  append_distinct_by_id sequenceId left (stamp_from fresh 0 right).

(** [class DebateSession(TypedDict)] *)
Record DebateSession : Type := {
  topic : str;
  user_position : str;
  round_number : Z;
  dialogue_history : list Message;
  logical_fallacies_found : list pyval;
  argument_scores : list pyval;
  devil_advocate_args : list str;
  socratic_questions : list str;
  coaching_tips : list str;
  verdict : str
}.

(** One [key: value] pair of the dict a node returns.  The keys are those
    the nodes of agents/nodes.py write. *)
Inductive Write : Type :=
| W_round_number (v : Z)
| W_dialogue_history (v : list BaseMessage)
| W_logical_fallacies_found (v : pyval)
| W_argument_scores (v : list pyval)
| W_devil_advocate_args (v : list str)
| W_socratic_questions (v : list str)
| W_coaching_tips (v : list str)
| W_verdict (v : str).

(** The dict a node returns: only the fields it updates. *)
Definition Update := list Write.

Definition set_round_number (s : DebateSession) (v : Z) : DebateSession :=
  {| topic := topic s; user_position := user_position s; round_number := v;
     dialogue_history := dialogue_history s;
     logical_fallacies_found := logical_fallacies_found s;
     argument_scores := argument_scores s;
     devil_advocate_args := devil_advocate_args s;
     socratic_questions := socratic_questions s;
     coaching_tips := coaching_tips s; verdict := verdict s |}.

Definition set_dialogue_history (s : DebateSession) (v : list Message) : DebateSession :=
  {| topic := topic s; user_position := user_position s; round_number := round_number s;
     dialogue_history := v;
     logical_fallacies_found := logical_fallacies_found s;
     argument_scores := argument_scores s;
     devil_advocate_args := devil_advocate_args s;
     socratic_questions := socratic_questions s;
     coaching_tips := coaching_tips s; verdict := verdict s |}.

Definition set_logical_fallacies_found (s : DebateSession) (v : list pyval) : DebateSession :=
  {| topic := topic s; user_position := user_position s; round_number := round_number s;
     dialogue_history := dialogue_history s;
     logical_fallacies_found := v;
     argument_scores := argument_scores s;
     devil_advocate_args := devil_advocate_args s;
     socratic_questions := socratic_questions s;
     coaching_tips := coaching_tips s; verdict := verdict s |}.

Definition set_argument_scores (s : DebateSession) (v : list pyval) : DebateSession :=
  {| topic := topic s; user_position := user_position s; round_number := round_number s;
     dialogue_history := dialogue_history s;
     logical_fallacies_found := logical_fallacies_found s;
     argument_scores := v;
     devil_advocate_args := devil_advocate_args s;
     socratic_questions := socratic_questions s;
     coaching_tips := coaching_tips s; verdict := verdict s |}.

Definition set_devil_advocate_args (s : DebateSession) (v : list str) : DebateSession :=
  {| topic := topic s; user_position := user_position s; round_number := round_number s;
     dialogue_history := dialogue_history s;
     logical_fallacies_found := logical_fallacies_found s;
     argument_scores := argument_scores s;
     devil_advocate_args := v;
     socratic_questions := socratic_questions s;
     coaching_tips := coaching_tips s; verdict := verdict s |}.

Definition set_socratic_questions (s : DebateSession) (v : list str) : DebateSession :=
  {| topic := topic s; user_position := user_position s; round_number := round_number s;
     dialogue_history := dialogue_history s;
     logical_fallacies_found := logical_fallacies_found s;
     argument_scores := argument_scores s;
     devil_advocate_args := devil_advocate_args s;
     socratic_questions := v;
     coaching_tips := coaching_tips s; verdict := verdict s |}.

Definition set_coaching_tips (s : DebateSession) (v : list str) : DebateSession :=
  {| topic := topic s; user_position := user_position s; round_number := round_number s;
     dialogue_history := dialogue_history s;
     logical_fallacies_found := logical_fallacies_found s;
     argument_scores := argument_scores s;
     devil_advocate_args := devil_advocate_args s;
     socratic_questions := socratic_questions s;
     coaching_tips := v; verdict := verdict s |}.

Definition set_verdict (s : DebateSession) (v : str) : DebateSession :=
  {| topic := topic s; user_position := user_position s; round_number := round_number s;
     dialogue_history := dialogue_history s;
     logical_fallacies_found := logical_fallacies_found s;
     argument_scores := argument_scores s;
     devil_advocate_args := devil_advocate_args s;
     socratic_questions := socratic_questions s;
     coaching_tips := coaching_tips s; verdict := v |}.

(** The merge of one written field into the session, by the reducer the
    field is annotated with; a field without annotation is overwritten. *)
Definition apply_write (fresh : nat -> Z) (s : DebateSession) (w : Write)
  : result DebateSession :=
  match w with
  | W_round_number v => Ok (set_round_number s v)
  | W_dialogue_history v =>
      Ok (set_dialogue_history s (add_messages fresh (dialogue_history s) v))
  | W_logical_fallacies_found v =>
      l <- _append_json (logical_fallacies_found s) v ;;
      Ok (set_logical_fallacies_found s l)
  | W_argument_scores v => Ok (set_argument_scores s (_append (argument_scores s) v))
  | W_devil_advocate_args v =>
      Ok (set_devil_advocate_args s (_append (devil_advocate_args s) v))
  | W_socratic_questions v =>
      Ok (set_socratic_questions s (_append (socratic_questions s) v))
  | W_coaching_tips v => Ok (set_coaching_tips s (_append (coaching_tips s) v))
  | W_verdict v => Ok (set_verdict s v)
  end.

(** [apply]: the session with every field of the update merged in, or the
    exception of the first reducer that raised. *)
Fixpoint apply (fresh : nat -> Z) (s : DebateSession) (u : Update) : result DebateSession :=
  match u with
  | [] => Ok s
  | w :: r => s' <- apply_write fresh s w ;; apply fresh s' r
  end.

(** ** agents/nodes.py *)

(** The node names of [build_debate_graph]. *)
Inductive node : Type :=
| intake
| fallacy_detector
| devil_advocate
| socratic_questioner
| argument_scorer
| increment_round
| final_coach.

Definition node_eq_dec (a b : node) : {a = b} + {a <> b}.
Proof. decide equality. Defined.

Definition node_eqb (a b : node) : bool := if node_eq_dec a b then true else false.

(** What the nodes call and the repository does not define: Python's [re]
    and [json], the Unicode digit table, the chat model, and the id the
    runtime gives a message that has none. *)
Record Externals : Type := {
  (** [re.sub(r"```(?:json)?\s*", "", text)] *)
  re_sub_fences : str -> str;
  (** [json.loads]; [None] stands for JSONDecodeError *)
  json_loads : str -> option pyval;
  (** [json.dumps(v)] and [json.dumps(v, indent=2)] *)
  json_dumps : pyval -> str;
  json_dumps_indent2 : pyval -> str;
  (** [c.isdigit()] *)
  isdigit : N -> bool;
  (** [(await chain.ainvoke({...})).content] of a node's prompt, filled from
      the state the node was given; [Raise] when the call fails *)
  llm : node -> DebateSession -> result str;
  (** the id given to the [i]-th message of a node's update *)
  fresh_id : node -> DebateSession -> nat -> Z
}.

Section Nodes.

Variable ext : Externals.

(** [_extract_json]: the fences stripped, then [json.loads]. *)
Definition _extract_json (text : str) : option pyval :=
  json_loads ext (strip (rstrip_chars (lit "```") (strip (re_sub_fences ext text)))).

(** NODE 1 *)
Definition intake_node (state : DebateSession) : result Update :=
  Ok [ W_round_number 1;
       W_dialogue_history [HumanMessage (user_position state)] ].

(** The progress lines of the fallacy detector: [len(fallacies)], then for
    each [f] the slice [f.get('explanation', '')[:80]]. *)
Definition print_fallacy (f : pyval) : result unit :=
  match f with
  | PDict d =>
      match dict_get d (lit "explanation") (PStr []) with
      | PStr _ | PList _ => Ok tt
      | _ => Raise TypeError   (* not subscriptable (a dict: KeyError from 3.12 on) *)
      end
  | _ => Raise AttributeError  (* no attribute 'get' *)
  end.

Fixpoint for_each {A : Type} (body : A -> result unit) (xs : list A) : result unit :=
  match xs with
  | [] => Ok tt
  | x :: r => _ <- body x ;; for_each body r
  end.

Definition print_fallacies (fallacies : pyval) : result unit :=
  if truthy fallacies then
    match fallacies with
    | PList l => for_each print_fallacy l
    | PStr _ | PDict _ => Raise AttributeError  (* iterates over str *)
    | _ => Raise TypeError                      (* a number has no len() *)
    end
  else Ok tt.

(** NODE 2 *)
Definition fallacy_detector_node (state : DebateSession) : result Update :=
  response <- llm ext fallacy_detector state ;;
  let fallacies :=
    match _extract_json response with
    | Some v => v
    | None => PList []
    end in
  _ <- print_fallacies fallacies ;;
  Ok [ W_logical_fallacies_found fallacies;
       W_dialogue_history
         [AIMessage (lit "[Fallacy Analysis] " ++ json_dumps_indent2 ext fallacies)] ].

(** NODE 3 *)
Definition devil_advocate_node (state : DebateSession) : result Update :=
  counter_args <- llm ext devil_advocate state ;;
  Ok [ W_devil_advocate_args [counter_args];
       W_dialogue_history
         [AIMessage (lit "[Counter-Arguments]" ++ [10%N] ++ counter_args)] ].

(** The list comprehension of the questioner: the stripped lines that are
    not empty and start with a digit or a dash. *)
Definition is_question_line (line : str) : bool :=
  match strip line with
  | [] => false
  | c :: _ => isdigit ext c || startswith (strip line) (lit "-")
  end.

Definition parse_questions (questions_text : str) : list str :=
  map strip (filter is_question_line (split_nl questions_text)).

(** NODE 4 *)
Definition socratic_questioner_node (state : DebateSession) : result Update :=
  questions_text <- llm ext socratic_questioner state ;;
  Ok [ W_socratic_questions (parse_questions questions_text);
       W_dialogue_history
         [AIMessage (lit "[Socratic Questions]" ++ [10%N] ++ questions_text)] ].

(** NODE 5 *)
Definition argument_scorer_node (state : DebateSession) : result Update :=
  response <- llm ext argument_scorer state ;;
  let score :=
    match _extract_json response with
    | Some v => v
    | None => PDict [ (lit "total", PInt 0);
                      (lit "summary", PStr (lit "Could not parse score.")) ]
    end in
  match score with
  | PDict d =>
      Ok [ W_argument_scores
             [PDict (dict_update [(lit "round", PInt (round_number state))] d)];
           W_dialogue_history
             [AIMessage (lit "[Score Round " ++ str_of_int (round_number state)
                         ++ lit "] " ++ json_dumps ext score)] ]
  | _ => Raise AttributeError   (* score.get on a non-dict *)
  end.

(** NODE 6 *)
Definition increment_round_node (state : DebateSession) : result Update :=
  let new_round := round_number state + 1 in
  let refined_arg :=
    lit "[Round " ++ str_of_int new_round ++ [32%N; 8212%N; 32%N]
    ++ lit "Refined position] "
    ++ lit "Building on my earlier argument about " ++ topic state ++ lit ": "
    ++ user_position state
    ++ lit " Furthermore, the evidence suggests this is inevitable." in
  Ok [ W_round_number new_round;
       W_dialogue_history [HumanMessage refined_arg] ].

(** The prefixes a line of the report must start with to count as a tip:
    [("•", "-", "Tip", "1.", "2.", "3.")]. *)
Definition tip_markers : list str :=
  [ [8226%N]; lit "-"; lit "Tip"; lit "1."; lit "2."; lit "3." ].

Definition extract_tips (report : str) : list str :=
  map strip
    (filter (fun line => startswith_any (strip line) tip_markers) (split_nl report)).

(** NODE 7 *)
Definition final_coach_node (state : DebateSession) : result Update :=
  report <- llm ext final_coach state ;;
  let tips := extract_tips report in
  Ok [ W_verdict report;
       W_coaching_tips (take 5 tips);
       W_dialogue_history [AIMessage (lit "[Final Report]" ++ [10%N] ++ report)] ].

(** The function registered under each name by [add_node]. *)
Definition node_fn (n : node) : DebateSession -> result Update :=
  match n with
  | intake => intake_node
  | fallacy_detector => fallacy_detector_node
  | devil_advocate => devil_advocate_node
  | socratic_questioner => socratic_questioner_node
  | argument_scorer => argument_scorer_node
  | increment_round => increment_round_node
  | final_coach => final_coach_node
  end.

End Nodes.

(** ** graph/debate_graph.py *)

Definition MAX_ROUNDS : Z := 3.

(** The two labels [should_continue] returns, ["continue"] and
    ["finalize"]. *)
Inductive Branch : Type := continue | finalize.

Definition should_continue (state : DebateSession) : Branch :=
  if round_number state >=? MAX_ROUNDS then finalize else continue.

(** Where an edge leads: a node, or [END]. *)
Inductive Target : Type :=
| To (n : node)
| END.

(** One call of [add_conditional_edges(source, path, path_map)]. *)
Record ConditionalEdge : Type := {
  source : node;
  path : DebateSession -> Branch;
  path_map : Branch -> node
}.

(** What the builder has been told by the time it is compiled. *)
Record StateGraph : Type := {
  nodes : list node;                 (* add_node, in the order of the calls *)
  entry : list node;                 (* add_edge(START, n) *)
  edges : list (node * Target);      (* add_edge(a, b) *)
  branches : list ConditionalEdge    (* add_conditional_edges *)
}.

(** [{"continue": "increment_round", "finalize": "final_coach"}] *)
Definition continue_or_finalize (b : Branch) : node :=
  match b with
  | continue => increment_round
  | finalize => final_coach
  end.

Definition build_debate_graph : StateGraph :=
  {| nodes := [ intake; fallacy_detector; devil_advocate; socratic_questioner;
                argument_scorer; increment_round; final_coach ];
     entry := [ intake ];
     edges := [ (intake, To fallacy_detector);
                (fallacy_detector, To devil_advocate);
                (fallacy_detector, To socratic_questioner);
                (fallacy_detector, To argument_scorer);
                (increment_round, To fallacy_detector);
                (final_coach, END) ];
     branches :=
       [ {| source := devil_advocate; path := should_continue;
            path_map := continue_or_finalize |};
         {| source := socratic_questioner; path := should_continue;
            path_map := continue_or_finalize |};
         {| source := argument_scorer; path := should_continue;
            path_map := continue_or_finalize |} ] |}.

(** The three nodes [fallacy_detector] fans out to. *)
Definition fan_out_group : list node :=
  [ devil_advocate; socratic_questioner; argument_scorer ].

(** ** main.py *)

(** The [initial_state] of [run_session]. *)
Definition initial_state (topic user_position : str) : DebateSession :=
  {| topic := topic; user_position := user_position; round_number := 0;
     dialogue_history := []; logical_fallacies_found := [];
     argument_scores := []; devil_advocate_args := [];
     socratic_questions := []; coaching_tips := []; verdict := [] |}.

(** [{"configurable": {"thread_id": "debate-session-1"}}] *)
Definition thread_id : str := lit "debate-session-1".

(** ** The graph runtime

    Modelled from the spec: the runtime behind [builder.compile] and
    [graph.astream] is langgraph's, which src/ imports and does not contain.
    It is modelled from spec 4.3 (steps, snapshot isolation, the fan-in fold
    in declared node order, no partial fold when a member fails) and spec 4.4
    (a checkpoint after every completed step).  The graph it is given is
    the one [build_debate_graph] wires. *)
Section Runtime.

Variable ext : Externals.
Variable g : StateGraph.

(** A session together with the step that runs next ([stepCursor]); an
    empty cursor means that [END] has been reached. *)
Record Checkpoint : Type := {
  session : DebateSession;
  stepCursor : list node
}.

(** A finished task: the node and what it returned or raised. *)
Definition Arrival : Type := node * result Update.

(** Every member of a step runs against the same snapshot. *)
Definition run_tasks (snapshot : DebateSession) (members : list node) : list Arrival :=
  map (fun n => (n, node_fn ext n snapshot)) members.

(** The arrivals of a step, put in the order the nodes were declared in,
    whatever order they completed in. *)
Definition in_declared_order (arrivals : list Arrival) : list Arrival :=
  flat_map (fun n => filter (fun a => node_eqb (fst a) n) arrivals) (nodes g).

(** The updates of a step if every member completed, else the first failure. *)
Fixpoint collect (arrivals : list Arrival) : (node * exn) + list (node * Update) :=
  match arrivals with
  | [] => inr []
  | (n, Raise e) :: _ => inl (n, e)
  | (n, Ok u) :: r =>
      match collect r with
      | inl f => inl f
      | inr us => inr ((n, u) :: us)
      end
  end.

(** The updates applied one after the other; a reducer that raises fails the
    step. *)
Fixpoint fold_updates (s : DebateSession) (us : list (node * Update))
  : (node * exn) + DebateSession :=
  match us with
  | [] => inr s
  | (n, u) :: r =>
      match apply (fresh_id ext n s) s u with
      | Ok s' => fold_updates s' r
      | Raise e => inl (n, e)
      end
  end.

(** Modelled from the spec: the fan-in barrier of the runtime, which is
    langgraph's and not under src/.  Spec 4.3, steps 2 and 4: when all
    members have completed their updates are applied one after the other in
    declared node order, not completion order; if any member fails nothing
    of the group is applied. *)
Definition fan_in (snapshot : DebateSession) (arrivals : list Arrival)
  : (node * exn) + DebateSession :=
  match collect (in_declared_order arrivals) with
  | inl f => inl f
  | inr us => fold_updates snapshot us
  end.

Definition edges_from (n : node) : list Target :=
  map snd (filter (fun e => node_eqb (fst e) n) (edges g)).

Definition branches_from (n : node) : list ConditionalEdge :=
  filter (fun b => node_eqb (source b) n) (branches g).

(** The conditional edges the builder attached to the members of a step,
    one per call of [add_conditional_edges]. *)
Definition attached (members : list node) : list ConditionalEdge :=
  flat_map branches_from members.

(** Modelled from the spec: the evaluation of the conditional edge by the
    runtime, which is langgraph's and not under src/.  Spec 4.2 and 4.3,
    step 3: the conditional edge belongs to the barrier of the group, and
    immediately after the fold its function is evaluated exactly once
    against the merged session, however many members of the group carry it.
    The list holds the label of each evaluation. *)
Definition decisions (members : list node) (merged : DebateSession) : list Branch :=
  match attached members with
  | [] => []
  | b :: _ => [path b merged]
  end.

Definition targets (members : list node) (merged : DebateSession) : list Target :=
  flat_map (fun n => edges_from n
                     ++ map (fun b => To (path_map b (path b merged))) (branches_from n))
           members.

(** The next step: each node that some target names, once. *)
Definition schedule (ts : list Target) : list node :=
  filter (fun n => existsb (fun t => match t with
                                     | To m => node_eqb m n
                                     | END => false
                                     end) ts)
         (nodes g).

Inductive StepResult : Type :=
| Completed (c : Checkpoint) (evaluated : list Branch)
| Failed (n : node) (e : exn).

(** Modelled from the spec: one step of the runtime, which is langgraph's
    and not under src/.  Spec 4.3: the members of the step run against the
    same snapshot, their updates are folded at the barrier, the conditional
    edge is evaluated on the merged session, and the edges that leave the
    members give the next step. *)
Definition superstep (c : Checkpoint) : StepResult :=
  let members := stepCursor c in
  match fan_in (session c) (run_tasks (session c) members) with
  | inl (n, e) => Failed n e
  | inr merged =>
      Completed {| session := merged;
                   stepCursor := schedule (targets members merged) |}
                (decisions members merged)
  end.

(** How a run ends.  Each outcome carries the last checkpoint: the one a
    failed step left in place, or the one the run was cut off at. *)
Inductive Outcome : Type :=
| Finished (c : Checkpoint)
| Aborted (n : node) (e : exn) (c : Checkpoint)
| Interrupted (c : Checkpoint).

Definition last_checkpoint (o : Outcome) : Checkpoint :=
  match o with
  | Finished c | Aborted _ _ c | Interrupted c => c
  end.

(** Modelled from the spec: the checkpoint store ([MemorySaver] in
    [build_debate_graph], langgraph's and not under src/).  Spec 4.4 and 6:
    one record per session id, overwritten by each save. *)
Definition Store : Type := str -> option Checkpoint.

Definition empty_store : Store := fun _ => None.

Definition save (st : Store) (sessionId : str) (c : Checkpoint) : Store :=
  fun k => if str_eqb k sessionId then Some c else st k.

Definition load (st : Store) (sessionId : str) : option Checkpoint := st sessionId.

(** Modelled from the spec: the step loop of the runtime, which is
    langgraph's and not under src/.  Spec 4.3 and 4.4: a failed step stops
    the run where it is; a checkpoint is saved after every completed step,
    before the next one is looked at; the loop ends at [END].  [steps]
    bounds the number of steps taken before the run is cut off. *)
Fixpoint drive (steps : nat) (sessionId : str) (st : Store) (c : Checkpoint)
  : Outcome * Store :=
  match stepCursor c with
  | [] => (Finished c, st)
  | _ :: _ =>
      match steps with
      | O => (Interrupted c, st)
      | S k =>
          match superstep c with
          | Failed n e => (Aborted n e c, st)
          | Completed c' _ => drive k sessionId (save st sessionId c') c'
          end
      end
  end.

(** The step loop without the store. *)
Fixpoint run (steps : nat) (c : Checkpoint) : Outcome :=
  match stepCursor c with
  | [] => Finished c
  | _ :: _ =>
      match steps with
      | O => Interrupted c
      | S k =>
          match superstep c with
          | Failed n e => Aborted n e c
          | Completed c' _ => run k c'
          end
      end
  end.

(** The checkpoints a run goes through, the first one included. *)
Fixpoint trace (steps : nat) (c : Checkpoint) : list Checkpoint :=
  c :: match steps with
       | O => []
       | S k =>
           match stepCursor c with
           | [] => []
           | _ :: _ =>
               match superstep c with
               | Failed _ _ => []
               | Completed c' _ => trace k c'
               end
           end
       end.

Definition start (topic user_position : str) : Checkpoint :=
  {| session := initial_state topic user_position; stepCursor := entry g |}.

(** [run_session] of main.py: the initial state driven through the graph
    under a session id. *)
Definition startSession (steps : nat) (topic user_position sessionId : str) (st : Store)
  : Outcome * Store :=
  drive steps sessionId st (start topic user_position).

(** Modelled from the spec: [resumeSession], which src/ does not have.
    Spec 6: loads the last checkpoint and continues from its cursor. *)
Definition resumeSession (steps : nat) (sessionId : str) (st : Store)
  : option (Outcome * Store) :=
  match load st sessionId with
  | Some c => Some (drive steps sessionId st c)
  | None => None
  end.

End Runtime.

(** ** Sample collaborators, for the examples *)

Definition sample_report : str :=
  lit "Overall: a promising start." ++ [10%N]
  ++ lit "Tip: slow down" ++ [10%N]
  ++ lit "  - cite your sources" ++ [10%N]
  ++ lit "4. not picked up".

(** A chat model that always answers, and a JSON parser that never
    succeeds (so each node takes its fallback). *)
Definition sample_llm (n : node) (s : DebateSession) : result str :=
  match n with
  | final_coach => Ok sample_report
  | _ => Ok (lit "1. Why?")
  end.

Definition with_llm (f : node -> DebateSession -> result str) : Externals :=
  {| re_sub_fences := fun t => t;
     json_loads := fun _ => None;
     json_dumps := fun _ => lit "{}";
     json_dumps_indent2 := fun _ => lit "[]";
     isdigit := fun c => ((48 <=? c) && (c <=? 57))%N;
     llm := f;
     fresh_id := fun _ s i => Z.of_nat (List.length (dialogue_history s) + i)%nat |}.

Definition sample : Externals := with_llm sample_llm.

(** The final coach gets an empty report back. *)
Definition silent : Externals :=
  with_llm (fun n s => match n with
                       | final_coach => Ok []
                       | _ => sample_llm n s
                       end).

(** The model answers [null] where a JSON list or object is asked for. *)
Definition nulls : Externals :=
  {| re_sub_fences := re_sub_fences sample;
     json_loads := fun _ => Some PNone;
     json_dumps := json_dumps sample;
     json_dumps_indent2 := json_dumps_indent2 sample;
     isdigit := isdigit sample;
     llm := llm sample;
     fresh_id := fresh_id sample |}.

(** The questioner's call to the model fails. *)
Definition flaky : Externals :=
  with_llm (fun n s => match n with
                       | socratic_questioner => Raise LLMError
                       | _ => sample_llm n s
                       end).

(** ** Vocabulary of the statements *)

(** The [dialogue_history] reducer on a session, for an update whose
    messages carry their ids. *)
Definition merge_history (s : DebateSession) (u : list Message) : DebateSession :=
  set_dialogue_history s (append_distinct_by_id sequenceId (dialogue_history s) u).

(** The first element of a list with a given id. *)
Fixpoint first_with {A : Type} (id : A -> Z) (i : Z) (l : list A) : option A :=
  match l with
  | [] => None
  | x :: r => if id x =? i then Some x else first_with id i r
  end.

Definition is_verdict (w : Write) : bool :=
  match w with W_verdict _ => true | _ => false end.

Definition is_coaching_tips (w : Write) : bool :=
  match w with W_coaching_tips _ => true | _ => false end.

Definition is_round_number (w : Write) : bool :=
  match w with W_round_number _ => true | _ => false end.

(** Whether an update has a key of the given kind. *)
Definition writes (kind : Write -> bool) (u : Update) : bool := existsb kind u.

(** The round numbers along a trace. *)
Definition rounds (tr : list Checkpoint) : list Z :=
  map (fun c => round_number (session c)) tr.

(** How many checkpoints of a trace have node [n] in their next step. *)
Definition times_scheduled (n : node) (tr : list Checkpoint) : nat :=
  List.length (filter (fun c => existsb (node_eqb n) (stepCursor c)) tr).

(** Between two consecutive checkpoints the round stays or goes up by one. *)
Definition stays_or_next (a b : Z) : Prop := b = a \/ b = a + 1.

(** A line that begins with a bullet or a numbering marker, in the words of
    the claim about [coaching_tips]: a bullet is ["•"] or ["-"], a
    numbering marker is digits followed by a full stop. *)
Definition ascii_digit (c : N) : bool := ((48 <=? c) && (c <=? 57))%N.

Definition begins_with_numbering (line : str) : bool :=
  match line with
  | c :: _ => ascii_digit c && startswith (dropwhile ascii_digit line) (lit ".")
  | [] => false
  end.

Definition begins_with_bullet_or_numbering (line : str) : bool :=
  startswith line [8226%N] || startswith line (lit "-") || begins_with_numbering line.

(** A fallacy report whose severity is none of high, medium, low. *)
Definition extreme_report : pyval :=
  PDict [ (lit "fallacy_name", PStr (lit "Straw Man"));
          (lit "quote", PStr (lit "they want chaos"));
          (lit "explanation", PStr (lit "misstates the other side"));
          (lit "severity", PStr (lit "extreme")) ].

(** How many steps a run of the debate graph still has to take from a
    checkpoint, going by its cursor and its round. *)
Definition remaining (c : Checkpoint) : nat :=
  match stepCursor c with
  | [] => 0
  | n :: _ =>
      match n with
      | intake => 10
      | fallacy_detector => Z.to_nat (12 - 3 * round_number (session c))
      | devil_advocate | socratic_questioner | argument_scorer =>
          Z.to_nat (11 - 3 * round_number (session c))
      | increment_round => Z.to_nat (10 - 3 * round_number (session c))
      | final_coach => 1
      end
  end.

(** The steps a run of the debate graph goes through. *)
Definition shapes : list (list node) :=
  [ [intake]; [fallacy_detector]; fan_out_group; [increment_round]; [final_coach]; [] ].

(** Where a run of the debate graph can be, and what holds of the session
    there. *)
Definition pristine (s : DebateSession) : Prop :=
  verdict s = [] /\ coaching_tips s = [].

Inductive Inv : Checkpoint -> Prop :=
| Inv_intake s :
    round_number s = 0 -> pristine s ->
    Inv {| session := s; stepCursor := [intake] |}
| Inv_detector s :
    1 <= round_number s <= MAX_ROUNDS -> pristine s ->
    Inv {| session := s; stepCursor := [fallacy_detector] |}
| Inv_group s :
    1 <= round_number s <= MAX_ROUNDS -> pristine s ->
    Inv {| session := s; stepCursor := fan_out_group |}
| Inv_increment s :
    1 <= round_number s < MAX_ROUNDS -> pristine s ->
    Inv {| session := s; stepCursor := [increment_round] |}
| Inv_final s :
    round_number s = MAX_ROUNDS -> pristine s ->
    Inv {| session := s; stepCursor := [final_coach] |}
| Inv_end s :
    round_number s = MAX_ROUNDS -> (List.length (coaching_tips s) <= 5)%nat ->
    Inv {| session := s; stepCursor := [] |}.

(** ** Vocabulary of the further properties *)

(** [isinstance(v, dict)] *)
Definition is_dict (v : pyval) : bool :=
  match v with PDict _ => true | _ => false end.

(** [k in v] for a dict [v]. *)
Definition has_key (k : str) (v : pyval) : bool :=
  match v with
  | PDict d => existsb (fun kv => str_eqb (fst kv) k) d
  | _ => false
  end.

(** [l'] is [l] with something appended. *)
Definition extends {A : Type} (l l' : list A) : Prop := exists t, l' = l ++ t.

(** The session [s'] has what [s] has, and possibly more at the end of the
    five accumulated lists. *)
Definition grows (s s' : DebateSession) : Prop :=
  topic s' = topic s
  /\ user_position s' = user_position s
  /\ extends (logical_fallacies_found s) (logical_fallacies_found s')
  /\ extends (argument_scores s) (argument_scores s')
  /\ extends (devil_advocate_args s) (devil_advocate_args s')
  /\ extends (socratic_questions s) (socratic_questions s')
  /\ extends (coaching_tips s) (coaching_tips s').

(** The analysis rounds a checkpoint of the debate graph has behind it: the
    current round is still to be analysed before the fan-out has been
    folded, and is done after it. *)
Definition rounds_done (c : Checkpoint) : Z :=
  match stepCursor c with
  | [] => round_number (session c)
  | n :: _ =>
      match n with
      | intake => 0
      | fallacy_detector | devil_advocate | socratic_questioner | argument_scorer =>
          round_number (session c) - 1
      | increment_round | final_coach => round_number (session c)
      end
  end.

(** The step a run of the debate graph is at when it has [r] steps left. *)
Definition cursor_at (r : nat) : list node :=
  match r with
  | 10 => [intake]
  | 9 | 6 | 3 => [fallacy_detector]
  | 8 | 5 | 2 => fan_out_group
  | 7 | 4 => [increment_round]
  | 1 => [final_coach]
  | _ => []
  end%nat.

(** [r; r-1; ...; 0] *)
Fixpoint countdown (r : nat) : list nat :=
  r :: match r with
       | O => []
       | S k => countdown k
       end.

(** What the accumulated lists of a checkpoint of the debate graph look
    like: one counter-argument and one score card per analysed round, every
    fallacy report a JSON object, every score card a JSON object with a
    ["round"] key. *)
Definition tallied (c : Checkpoint) : Prop :=
  Z.of_nat (List.length (devil_advocate_args (session c))) = rounds_done c
  /\ Z.of_nat (List.length (argument_scores (session c))) = rounds_done c
  /\ Forall (fun f => is_dict f = true) (logical_fallacies_found (session c))
  /\ Forall (fun v => is_dict v = true /\ has_key (lit "round") v = true)
            (argument_scores (session c)).

(** The order of the steps of a run of the debate graph that finishes. *)
Definition full_schedule : list (list node) :=
  [ [intake];
    [fallacy_detector]; fan_out_group; [increment_round];
    [fallacy_detector]; fan_out_group; [increment_round];
    [fallacy_detector]; fan_out_group;
    [final_coach]; [] ].

(** The scorer's model answers with a score card that carries a round of
    its own. *)
Definition overriding : Externals :=
  {| re_sub_fences := re_sub_fences sample;
     json_loads := fun _ => Some (PDict [ (lit "round", PInt 7);
                                          (lit "total", PInt 31) ]);
     json_dumps := json_dumps sample;
     json_dumps_indent2 := json_dumps_indent2 sample;
     isdigit := isdigit sample;
     llm := llm sample;
     fresh_id := fresh_id sample |}.

(** [re.sub(r"```(?:json)?\s*", "", text)], read from left to right: a
    fence is three backticks, then ["json"] if it is there, then all the
    white space that follows; every fence goes, everything else stays.
    [skip] counts the code points of the fence still to drop, and
    [after_fence] says that the white space of a fence is being dropped. *)
Fixpoint sub_fences_from (skip : nat) (after_fence : bool) (s : str) : str :=
  match s with
  | [] => []
  | c :: r =>
      match skip with
      | S k => sub_fences_from k true r
      | O =>
          if after_fence && isspace c then sub_fences_from 0 true r
          else if startswith s (lit "```")
               then sub_fences_from (if startswith s (lit "```json") then 6 else 2)
                                    true r
               else c :: sub_fences_from 0 false r
      end
  end.

Definition sub_fences (text : str) : str := sub_fences_from 0 false text.

(** No code point of the string is a backtick. *)
Definition no_backtick (s : str) : Prop := Forall (fun c => c <> 96%N) s.

(** Every code point of the string is white space. *)
Definition all_space (s : str) : Prop := Forall (fun c => isspace c = true) s.

(** Collaborators whose [re.sub] is the one above, and whose JSON parser
    knows the empty list. *)
Definition fenced : Externals :=
  {| re_sub_fences := sub_fences;
     json_loads := fun t => if str_eqb t (lit "[]") then Some (PList []) else None;
     json_dumps := json_dumps sample;
     json_dumps_indent2 := json_dumps_indent2 sample;
     isdigit := isdigit sample;
     llm := llm sample;
     fresh_id := fresh_id sample |}.

(** ** main.py, the loop of [run_session] *)


(** [s * n] *)
Definition times (s : str) (n : nat) : str := List.concat (repeat s n).



(** ** utils/visualization.py *)

(** [s.ljust(width)] *)
Definition ljust (width : nat) (s : str) : str :=
  s ++ repeat 32%N (width - List.length s).

(** [s.center(width)]: the odd space goes to the left when the width is
    odd too. *)
Definition center (width : nat) (s : str) : str :=
  let pad := (width - List.length s)%nat in
  let left := (pad / 2 + (if Nat.odd pad && Nat.odd width then 1 else 0))%nat in
  repeat 32%N left ++ s ++ repeat 32%N (pad - left).

(** The strings [print_debate_banner] hands to [print], one per call. *)
Definition print_debate_banner (topic : str) (max_rounds : Z) : list str :=
  let width := 64%nat in
  [ [10%N] ++ [9556%N] ++ times [9552%N] (width - 2) ++ [9559%N];
    [9553%N]
    ++ center (width - 2) ([32%N; 127917%N] ++ lit " SOCRATIC DEBATE COACH AGENT ")
    ++ [9553%N];
    [9553%N]
    ++ center (width - 2) (lit " Powered by LangChain 1.0 + LangGraph 1.0 ")
    ++ [9553%N];
    [9568%N] ++ times [9552%N] (width - 2) ++ [9571%N];
    [9553%N] ++ ljust (width - 2) (lit " Topic: " ++ take (width - 10) topic) ++ [9553%N];
    [9553%N]
    ++ ljust (width - 2)
         (lit " Rounds: " ++ str_of_int max_rounds ++ lit " | Agents: 5 specialized nodes")
    ++ [9553%N];
    [9562%N] ++ times [9552%N] (width - 2) ++ [9565%N] ++ [10%N] ].

(** ** tools/debate_tools.py *)

(** ["\n".join(xs)] *)
Fixpoint join_nl (xs : list str) : str :=
  match xs with
  | [] => []
  | [x] => x
  | x :: r => x ++ [10%N] ++ join_nl r
  end.

Definition mock_pro : list str :=
  [ lit "Kurzweil (2005): Exponential growth in computing will solve intractable problems";
    lit "Bostrom (2014): Superintelligent AI could optimize all human goals at once" ].

Definition mock_con : list str :=
  [ lit "Russell (2019): Value alignment problem makes safe AGI extremely difficult";
    lit "Tegmark (2017): Economic disruption could destabilize society before benefits arrive" ].

(** The [results] list of [search_argument_database]. *)
Definition search_results (stance : str) : list str :=
  (if str_eqb stance (lit "pro") || str_eqb stance (lit "both")
   then map (fun a => lit "[PRO] " ++ a) mock_pro else [])
  ++ (if str_eqb stance (lit "con") || str_eqb stance (lit "both")
      then map (fun a => lit "[CON] " ++ a) mock_con else []).

Definition search_argument_database (topic stance : str) : str :=
  lit "Arguments found for '" ++ topic ++ lit "':" ++ [10%N]
  ++ join_nl (search_results stance).

(** A line as the line filters of the nodes leave it: not empty, and with
    no white space at either end. *)
Definition clean_line (l : str) : Prop := l <> [] /\ strip l = l.

(** * Properties *)

(** ** The Python helpers on small inputs *)

Example strip_both_ends :
  strip (lit "  a b " ++ [9%N; 10%N; 160%N]) = lit "a b".
Proof. reflexivity. Qed.

Example split_keeps_empty_lines :
  split_nl (lit "a" ++ [10%N; 10%N] ++ lit "b" ++ [10%N])
  = [lit "a"; []; lit "b"; []].
Proof. reflexivity. Qed.

Example startswith_tuple :
  startswith_any (lit "2. listen") tip_markers = true
  /\ startswith_any (lit "4. listen") tip_markers = false
  /\ startswith_any ([8226%N] ++ lit " listen") tip_markers = true.
Proof. repeat split. Qed.

Example str_of_negative_int : str_of_int (-12) = lit "-12".
Proof. reflexivity. Qed.

Example rstrip_backticks :
  rstrip_chars (lit "```") (lit "[]```") = lit "[]".
Proof. reflexivity. Qed.

Example dict_literal_with_unpacking :
  dict_update [(lit "round", PInt 2)]
              [(lit "total", PInt 31); (lit "round", PInt 7)]
  = [(lit "round", PInt 7); (lit "total", PInt 31)].
Proof. reflexivity. Qed.

Example tips_of_sample_report :
  extract_tips sample_report = [lit "Tip: slow down"; lit "- cite your sources"].
Proof. reflexivity. Qed.

(** A whole run with the sample collaborators: ten steps, three rounds. *)
Example sample_run_finishes :
  match run sample build_debate_graph 10
          (start build_debate_graph (lit "topic") (lit "position")) with
  | Finished c =>
      round_number (session c) = 3
      /\ verdict (session c) = sample_report
      /\ coaching_tips (session c) = [lit "Tip: slow down"; lit "- cite your sources"]
      /\ List.length (dialogue_history (session c)) = 16%nat
      /\ List.length (argument_scores (session c)) = 3%nat
      /\ List.length (devil_advocate_args (session c)) = 3%nat
  | _ => False
  end.
Proof. vm_compute. repeat split. Qed.

Example sample_run_cursors :
  map stepCursor
      (trace sample build_debate_graph 4
         (start build_debate_graph (lit "topic") (lit "position")))
  = [ [intake]; [fallacy_detector]; fan_out_group; [increment_round];
      [fallacy_detector] ].
Proof. vm_compute. reflexivity. Qed.

(** ** The reducers *)

Section AppendDistinctFacts.

Context {A : Type} (id : A -> Z).

Local Notation "'has'" := (has_id id).
Local Notation "'put'" := (replace_in_place id).
Local Notation "'add'" := (add_one id).
Local Notation "'first_with'" := (first_with id).

Lemma has_put i l m : has i (put l m) = has i l.
Proof.
  induction l as [|x r IH]; simpl; [reflexivity|].
  destruct (id x =? id m) eqn:E; simpl.
  - apply Z.eqb_eq in E. rewrite E. reflexivity.
  - rewrite IH. reflexivity.
Qed.

Lemma has_app i l l' : has i (l ++ l') = has i l || has i l'.
Proof. apply existsb_app. Qed.

Lemma has_add i l m : has i (add l m) = has i l || (id m =? i).
Proof.
  unfold add_one. destruct (has (id m) l) eqn:E.
  - rewrite has_put. destruct (id m =? i) eqn:F.
    + apply Z.eqb_eq in F. subst i. rewrite E. reflexivity.
    + rewrite orb_false_r. reflexivity.
  - rewrite has_app. simpl. rewrite orb_false_r. reflexivity.
Qed.

Lemma has_fold i u : forall l, has i l = true -> has i (fold_left add u l) = true.
Proof.
  induction u as [|m u IH]; intros l H; simpl; [exact H|].
  apply IH. rewrite has_add, H. reflexivity.
Qed.

Lemma put_put_same l a b : id a = id b -> put (put l a) b = put l b.
Proof.
  intros E. induction l as [|x r IH]; simpl; [reflexivity|].
  rewrite E. destruct (id x =? id b) eqn:F; simpl.
  - rewrite E, Z.eqb_refl. reflexivity.
  - rewrite F, IH. reflexivity.
Qed.

Lemma put_put_comm l a b : id a <> id b -> put (put l a) b = put (put l b) a.
Proof.
  intros N. induction l as [|x r IH]; simpl; [reflexivity|].
  destruct (id x =? id a) eqn:Ea; destruct (id x =? id b) eqn:Eb; simpl.
  - apply Z.eqb_eq in Ea, Eb. congruence.
  - apply Z.eqb_neq in N. rewrite N, Ea. reflexivity.
  - assert ((id b =? id a) = false) as N' by (apply Z.eqb_neq; congruence).
    rewrite Eb, N'. reflexivity.
  - rewrite Ea, Eb, IH. reflexivity.
Qed.

Lemma put_app l l' a : has (id a) l = true -> put (l ++ l') a = put l a ++ l'.
Proof.
  induction l as [|x r IH]; simpl; [discriminate|].
  destruct (id x =? id a) eqn:E; simpl; intros H; [reflexivity|].
  rewrite IH by exact H. reflexivity.
Qed.

Lemma put_noop l a : first_with (id a) l = Some a -> put l a = l.
Proof.
  induction l as [|x r IH]; simpl; [reflexivity|].
  destruct (id x =? id a) eqn:E; intros H.
  - congruence.
  - rewrite IH by exact H. reflexivity.
Qed.

Lemma first_put i l m :
  first_with i (put l m) = if id m =? i then (if has i l then Some m else None)
                           else first_with i l.
Proof.
  induction l as [|x r IH]; simpl.
  - destruct (id m =? i); reflexivity.
  - destruct (id x =? id m) eqn:E; simpl.
    + apply Z.eqb_eq in E. rewrite E. destruct (id m =? i); reflexivity.
    + rewrite IH. destruct (id m =? i) eqn:F.
      * apply Z.eqb_eq in F. subst i. rewrite E. reflexivity.
      * reflexivity.
Qed.

Lemma first_none i l : has i l = false -> first_with i l = None.
Proof.
  induction l as [|x r IH]; simpl; [reflexivity|].
  destruct (id x =? i); simpl; [discriminate|exact IH].
Qed.

Lemma first_app i l l' :
  first_with i (l ++ l') = match first_with i l with
                           | Some x => Some x
                           | None => first_with i l'
                           end.
Proof.
  induction l as [|x r IH]; simpl; [reflexivity|].
  destruct (id x =? i); [reflexivity|exact IH].
Qed.

Lemma first_add_same l m : first_with (id m) (add l m) = Some m.
Proof.
  unfold add_one. destruct (has (id m) l) eqn:E.
  - rewrite first_put, Z.eqb_refl, E. reflexivity.
  - rewrite first_app, (first_none _ _ E). simpl. rewrite Z.eqb_refl. reflexivity.
Qed.

Lemma first_add_other i l m : id m <> i -> first_with i (add l m) = first_with i l.
Proof.
  intros N. apply Z.eqb_neq in N. unfold add_one. destruct (has (id m) l).
  - rewrite first_put, N. reflexivity.
  - rewrite first_app. simpl. rewrite N. destruct (first_with i l); reflexivity.
Qed.

Lemma first_fold_other i u :
  has i u = false -> forall l, first_with i (fold_left add u l) = first_with i l.
Proof.
  induction u as [|m u IH]; simpl; intros H l; [reflexivity|].
  apply orb_false_iff in H. destruct H as [H1 H2].
  rewrite IH by exact H2. apply first_add_other. apply Z.eqb_neq. exact H1.
Qed.

(** An element overwritten later in the update leaves no trace. *)
Lemma fold_absorbs a u :
  has (id a) u = true ->
  forall l, has (id a) l = true -> fold_left add u (put l a) = fold_left add u l.
Proof.
  induction u as [|b u IH]; simpl; [discriminate|].
  intros Hu l Hl. destruct (id b =? id a) eqn:E.
  - apply Z.eqb_eq in E. f_equal. unfold add_one.
    rewrite has_put, E, Hl. apply put_put_same. congruence.
  - simpl in Hu. assert (id a <> id b) as N by (apply Z.eqb_neq in E; congruence).
    unfold add_one. rewrite has_put. destruct (has (id b) l) eqn:Hb.
    + rewrite put_put_comm by exact N. apply IH; [exact Hu|].
      rewrite has_put. exact Hl.
    + rewrite <- put_app by exact Hl. apply IH; [exact Hu|].
      rewrite has_app, Hl. reflexivity.
Qed.

Lemma append_distinct_idem u :
  forall l, fold_left add u (fold_left add u l) = fold_left add u l.
Proof.
  induction u as [|a u IH]; intros l; simpl; [reflexivity|].
  set (t := add l a).
  assert (has (id a) (fold_left add u t) = true) as Hin.
  { apply has_fold. unfold t. rewrite has_add, Z.eqb_refl. apply orb_true_r. }
  unfold add_one at 2. rewrite Hin.
  destruct (has (id a) u) eqn:Hu.
  - rewrite fold_absorbs by assumption. apply IH.
  - rewrite put_noop; [apply IH|].
    rewrite first_fold_other by exact Hu. apply first_add_same.
Qed.

Lemma add_one_length l m :
  List.length (add l m) = if has (id m) l then List.length l else S (List.length l).
Proof.
  unfold add_one. destruct (has (id m) l).
  - clear. induction l as [|x r IH]; simpl; [reflexivity|].
    destruct (id x =? id m); simpl; [reflexivity|]. rewrite IH. reflexivity.
  - rewrite length_app. simpl. lia.
Qed.

End AppendDistinctFacts.

Lemma put_keeps_ids {A : Type} (id : A -> Z) (l : list A) (m : A) :
  has_id id (id m) l = true -> map id (replace_in_place id l m) = map id l.
Proof.
  induction l as [|x r IH]; simpl; [reflexivity|].
  destruct (id x =? id m) eqn:E; simpl; intros H.
  - apply Z.eqb_eq in E. rewrite E. reflexivity.
  - rewrite IH by exact H. reflexivity.
Qed.

(** C7. Applying a [dialogue_history] update twice gives the session that
    applying it once gives.  A message whose id is already present takes the
    place of the one that has it (the ids of the history, and so its length
    and order, stay as they were); any other message is appended.  The same
    holds when the ids are stamped on the messages of a node as they
    arrive. *)
Theorem C7_dialogue_history_reducer_idempotent :
  forall (s : DebateSession) (u : list Message),
    merge_history (merge_history s u) u = merge_history s u
    /\ (forall m : Message,
          map sequenceId (dialogue_history (merge_history s [m]))
          = (if has_id sequenceId (sequenceId m) (dialogue_history s)
             then map sequenceId (dialogue_history s)
             else map sequenceId (dialogue_history s) ++ [sequenceId m])
          /\ first_with sequenceId (sequenceId m) (dialogue_history (merge_history s [m]))
             = Some m)
    /\ (forall (fresh : nat -> Z) (drafts : list BaseMessage),
          add_messages fresh (add_messages fresh (dialogue_history s) drafts) drafts
          = add_messages fresh (dialogue_history s) drafts).
Proof.
  intros s u. split; [|split].
  - unfold merge_history, append_distinct_by_id. destruct s; simpl.
    rewrite append_distinct_idem. reflexivity.
  - intros m. unfold merge_history, append_distinct_by_id. simpl. split.
    + unfold add_one.
      destruct (has_id sequenceId (sequenceId m) (dialogue_history s)) eqn:E.
      * apply put_keeps_ids. exact E.
      * rewrite map_app. reflexivity.
    + apply first_add_same.
  - intros fresh drafts. unfold add_messages, append_distinct_by_id.
    apply append_distinct_idem.
Qed.

(** ** [_append] and [apply] *)

(** C4, as the code has it.  Applying a [logical_fallacies_found] update
    checks nothing about its elements: a list is appended element for
    element, whatever the severities say, and the only failure is the
    TypeError of [existing + new] when the new value is not a list.  An
    update that fails so fails the step at the barrier, and nothing of it
    is applied. *)
Theorem C4_apply_appends_without_validation :
  forall (ext : Externals) (fresh : nat -> Z) (s : DebateSession) (v : pyval)
         (rest : Update),
    apply fresh s [W_logical_fallacies_found v]
    = match v with
      | PList reports =>
          Ok (set_logical_fallacies_found s (logical_fallacies_found s ++ reports))
      | _ => Raise TypeError
      end
    /\ match v with
       | PList _ => True
       | _ =>
           fan_in ext build_debate_graph s
             [(fallacy_detector, Ok (W_logical_fallacies_found v :: rest))]
           = inl (fallacy_detector, TypeError)
       end.
Proof.
  intros ext fresh s v rest. split; destruct v; try reflexivity; exact I.
Qed.

(** The detector reads [null] in round 1: the reducer raises, the run stops
    at the detector and the session is the one [intake] left. *)
Example null_fallacies_abort_the_run :
  match run nulls build_debate_graph 10
          (start build_debate_graph (lit "topic") (lit "position")) with
  | Aborted n e c =>
      n = fallacy_detector /\ e = TypeError
      /\ stepCursor c = [fallacy_detector]
      /\ round_number (session c) = 1
      /\ logical_fallacies_found (session c) = []
      /\ List.length (dialogue_history (session c)) = 1%nat
  | _ => False
  end.
Proof. vm_compute. repeat split. Qed.

(** C4, refuted as stated.  A fallacy report with severity ["extreme"] is
    merged without an error, and the session is not what it was: it now
    holds the report. *)
Lemma C4_extreme_severity_is_appended :
  dict_get (match extreme_report with PDict d => d | _ => [] end)
           (lit "severity") PNone = PStr (lit "extreme")
  /\ exists s' : DebateSession,
       apply (fun i => Z.of_nat i) (initial_state (lit "topic") (lit "position"))
             [W_logical_fallacies_found (PList [extreme_report])] = Ok s'
       /\ logical_fallacies_found s' = [extreme_report]
       /\ logical_fallacies_found (initial_state (lit "topic") (lit "position")) = [].
Proof.
  split; [reflexivity|]. eexists. split; [reflexivity|]. split; reflexivity.
Qed.

(** ** What a node writes *)

Lemma apply_write_frame fresh s w s' :
  apply_write fresh s w = Ok s' ->
  (is_round_number w = false -> round_number s' = round_number s)
  /\ (is_verdict w = false -> verdict s' = verdict s)
  /\ (is_coaching_tips w = false -> coaching_tips s' = coaching_tips s).
Proof.
  destruct w; simpl; try (destruct v; simpl); intros H;
    inversion H; subst; simpl; repeat split; intros; congruence.
Qed.

Lemma apply_frame fresh u : forall s s',
  apply fresh s u = Ok s' ->
  (writes is_round_number u = false -> round_number s' = round_number s)
  /\ (writes is_verdict u = false -> verdict s' = verdict s)
  /\ (writes is_coaching_tips u = false -> coaching_tips s' = coaching_tips s).
Proof.
  induction u as [|w u IH]; simpl; intros s s' H.
  - inversion H. auto.
  - destruct (apply_write fresh s w) as [s1|e] eqn:W; simpl in H; [|discriminate].
    destruct (apply_write_frame _ _ _ _ W) as (R & V & T).
    destruct (IH _ _ H) as (R' & V' & T').
    repeat split; intros K; apply orb_false_iff in K; destruct K as [K1 K2].
    + rewrite R' by exact K2. auto.
    + rewrite V' by exact K2. auto.
    + rewrite T' by exact K2. auto.
Qed.

(** Which node writes [round_number], [verdict] and [coaching_tips]. *)
Lemma node_writes ext n s u :
  node_fn ext n s = Ok u ->
  writes is_round_number u = node_eqb n intake || node_eqb n increment_round
  /\ writes is_verdict u = node_eqb n final_coach
  /\ writes is_coaching_tips u = node_eqb n final_coach.
Proof.
  destruct n; simpl.
  - intros H. inversion H. auto.
  - unfold fallacy_detector_node. destruct (llm ext fallacy_detector s); simpl; [|discriminate].
    destruct (print_fallacies _); simpl; [|discriminate].
    intros H. inversion H. auto.
  - unfold devil_advocate_node. destruct (llm ext devil_advocate s); simpl; [|discriminate].
    intros H. inversion H. auto.
  - unfold socratic_questioner_node.
    destruct (llm ext socratic_questioner s); simpl; [|discriminate].
    intros H. inversion H. auto.
  - unfold argument_scorer_node. destruct (llm ext argument_scorer s); simpl; [|discriminate].
    destruct (match _extract_json ext a with Some v => v | None => _ end);
      try discriminate.
    intros H. inversion H. auto.
  - intros H. inversion H. auto.
  - unfold final_coach_node. destruct (llm ext final_coach s); simpl; [|discriminate].
    intros H. inversion H. auto.
Qed.

(** ** The steps of the debate graph *)

Section Steps.

Variable ext : Externals.

Local Notation "'G'" := build_debate_graph.

Lemma collect_ok s members us :
  collect (run_tasks ext s members) = inr us ->
  Forall (fun nu => In (fst nu) members /\ node_fn ext (fst nu) s = Ok (snd nu)) us.
Proof.
  revert us. induction members as [|n r IH]; simpl; intros us H.
  - inversion H. constructor.
  - destruct (node_fn ext n s) as [u|e] eqn:N; [|discriminate].
    destruct (collect (run_tasks ext s r)) as [f|us'] eqn:C; [discriminate|].
    inversion H; subst. constructor; [simpl; auto|].
    eapply Forall_impl; [|apply IH; reflexivity].
    simpl. intros a [? ?]. auto.
Qed.

Lemma collect_failure s members :
  forall n e, In n members -> node_fn ext n s = Raise e ->
  exists n' e', In n' members /\ node_fn ext n' s = Raise e'
                /\ collect (run_tasks ext s members) = inl (n', e').
Proof.
  induction members as [|m r IH]; simpl; intros n e I N; [contradiction|].
  destruct (node_fn ext m s) as [u|e0] eqn:M.
  - destruct I as [->|I]; [congruence|].
    destruct (IH _ _ I N) as (n' & e' & I' & N' & C).
    exists n', e'. rewrite C. auto.
  - exists m, e0. auto.
Qed.

Lemma fold_updates_frame us : forall s s',
  fold_updates ext s us = inr s' ->
  (Forall (fun nu => writes is_round_number (snd nu) = false) us ->
   round_number s' = round_number s)
  /\ (Forall (fun nu => writes is_verdict (snd nu) = false) us ->
      verdict s' = verdict s)
  /\ (Forall (fun nu => writes is_coaching_tips (snd nu) = false) us ->
      coaching_tips s' = coaching_tips s).
Proof.
  induction us as [|[n u] us IH]; simpl; intros s s' H.
  - inversion H. auto.
  - destruct (apply (fresh_id ext n s) s u) as [s1|e] eqn:A; [|discriminate].
    destruct (apply_frame _ _ _ _ A) as (R & V & T).
    destruct (IH _ _ H) as (R' & V' & T').
    repeat split; intros K; inversion K; subst; simpl in *.
    + rewrite R' by assumption. auto.
    + rewrite V' by assumption. auto.
    + rewrite T' by assumption. auto.
Qed.

Lemma superstep_eq s members :
  In members shapes ->
  superstep ext G {| session := s; stepCursor := members |}
  = match collect (run_tasks ext s members) with
    | inl (n, e) => Failed n e
    | inr us =>
        match fold_updates ext s us with
        | inl (n, e) => Failed n e
        | inr s' =>
            Completed {| session := s'; stepCursor := schedule G (targets G members s') |}
                      (decisions G members s')
        end
    end.
Proof.
  intros H.
  assert (in_declared_order G (run_tasks ext s members) = run_tasks ext s members) as E.
  { unfold shapes in H. simpl in H.
    repeat (destruct H as [<-|H]; [reflexivity|]). contradiction. }
  unfold superstep, fan_in. simpl session. simpl stepCursor. rewrite E.
  destruct (collect (run_tasks ext s members)) as [[n e]|us]; reflexivity.
Qed.

End Steps.

Lemma existsb_false_at {A : Type} (f : A -> bool) (l : list A) (x : A) :
  existsb f l = false -> In x l -> f x = false.
Proof.
  induction l as [|y r IH]; simpl; [contradiction|].
  intros E [->|I]; apply orb_false_iff in E; destruct E as [E1 E2]; auto.
Qed.

Section Invariant.

Variable ext : Externals.

Local Notation "'G'" := build_debate_graph.

Lemma collect_inl s members n e :
  collect (run_tasks ext s members) = inl (n, e) ->
  In n members /\ node_fn ext n s = Raise e.
Proof.
  induction members as [|m r IH]; simpl; [discriminate|].
  destruct (node_fn ext m s) as [u|e0] eqn:M.
  - destruct (collect (run_tasks ext s r)) as [f|us]; [|discriminate].
    intros H. inversion H; subst. destruct IH as [I N]; auto.
  - intros H. inversion H; subst. auto.
Qed.

Lemma fold_updates_inl us : forall s n e,
  fold_updates ext s us = inl (n, e) -> In n (map fst us).
Proof.
  induction us as [|[m u] us IH]; simpl; intros s n e H; [discriminate|].
  destruct (apply (fresh_id ext m s) s u) as [s1|e1].
  - right. eapply IH. exact H.
  - inversion H. auto.
Qed.

Lemma failed_member s members n e :
  In members shapes ->
  superstep ext G {| session := s; stepCursor := members |} = Failed n e ->
  In n members.
Proof.
  intros Sh H. rewrite superstep_eq in H by exact Sh.
  destruct (collect (run_tasks ext s members)) as [[n0 e0]|us] eqn:C.
  - inversion H; subst. apply (collect_inl _ _ _ _ C).
  - destruct (fold_updates ext s us) as [[n0 e0]|s'] eqn:F; [|discriminate].
    inversion H; subst. apply fold_updates_inl in F.
    apply in_map_iff in F. destruct F as ([m u] & E & I). simpl in E. subst m.
    pose proof (collect_ok _ _ _ _ C) as K.
    rewrite Forall_forall in K. apply (K _ I).
Qed.

(** A step changes only what its members write. *)
Lemma step_frame s members c' ev :
  In members shapes ->
  superstep ext G {| session := s; stepCursor := members |} = Completed c' ev ->
  stepCursor c' = schedule G (targets G members (session c'))
  /\ ev = decisions G members (session c')
  /\ (existsb (fun n => node_eqb n intake || node_eqb n increment_round) members = false ->
      round_number (session c') = round_number s)
  /\ (existsb (fun n => node_eqb n final_coach) members = false ->
      verdict (session c') = verdict s
      /\ coaching_tips (session c') = coaching_tips s).
Proof.
  intros Sh H. rewrite superstep_eq in H by exact Sh.
  destruct (collect (run_tasks ext s members)) as [[n e]|us] eqn:C; [discriminate|].
  destruct (fold_updates ext s us) as [[n e]|s'] eqn:F; [discriminate|].
  inversion H; subst; simpl. split; [reflexivity|]. split; [reflexivity|].
  pose proof (collect_ok _ _ _ _ C) as K.
  destruct (fold_updates_frame _ _ _ _ F) as (R & V & T).
  split.
  - intros E. apply R. eapply Forall_impl; [|exact K].
    intros [n u] [I N]. simpl in *.
    destruct (node_writes _ _ _ _ N) as (W & _ & _). rewrite W.
    apply (existsb_false_at _ _ _ E I).
  - intros E. split.
    + apply V. eapply Forall_impl; [|exact K].
      intros [n u] [I N]. simpl in *.
      destruct (node_writes _ _ _ _ N) as (_ & W & _). rewrite W.
      apply (existsb_false_at _ _ _ E I).
    + apply T. eapply Forall_impl; [|exact K].
      intros [n u] [I N]. simpl in *.
      destruct (node_writes _ _ _ _ N) as (_ & _ & W). rewrite W.
      apply (existsb_false_at _ _ _ E I).
Qed.

Lemma step_intake s :
  exists s',
    superstep ext G {| session := s; stepCursor := [intake] |}
    = Completed {| session := s'; stepCursor := [fallacy_detector] |} []
    /\ round_number s' = 1
    /\ verdict s' = verdict s /\ coaching_tips s' = coaching_tips s.
Proof.
  eexists. split; [reflexivity|]. simpl. auto.
Qed.

Lemma step_increment s :
  exists s',
    superstep ext G {| session := s; stepCursor := [increment_round] |}
    = Completed {| session := s'; stepCursor := [fallacy_detector] |} []
    /\ round_number s' = round_number s + 1
    /\ verdict s' = verdict s /\ coaching_tips s' = coaching_tips s.
Proof.
  eexists. split; [reflexivity|]. simpl. auto.
Qed.

Lemma step_final s :
  match llm ext final_coach s with
  | Raise e =>
      superstep ext G {| session := s; stepCursor := [final_coach] |}
      = Failed final_coach e
  | Ok report =>
      exists s',
        superstep ext G {| session := s; stepCursor := [final_coach] |}
        = Completed {| session := s'; stepCursor := [] |} []
        /\ round_number s' = round_number s
        /\ verdict s' = report
        /\ coaching_tips s' = coaching_tips s ++ take 5 (extract_tips report)
  end.
Proof.
  destruct (llm ext final_coach s) as [report|e] eqn:L.
  - eexists. split.
    + unfold superstep, fan_in. simpl. unfold final_coach_node. rewrite L. simpl.
      reflexivity.
    + simpl. auto.
  - unfold superstep, fan_in. simpl. unfold final_coach_node. rewrite L. reflexivity.
Qed.

Lemma step_detector s c' ev :
  superstep ext G {| session := s; stepCursor := [fallacy_detector] |} = Completed c' ev ->
  stepCursor c' = fan_out_group /\ ev = []
  /\ round_number (session c') = round_number s
  /\ verdict (session c') = verdict s
  /\ coaching_tips (session c') = coaching_tips s.
Proof.
  intros H. apply step_frame in H; [|unfold shapes; simpl; auto].
  destruct H as (Cur & Ev & R & VT).
  destruct (VT eq_refl) as [V T]. rewrite (R eq_refl). auto.
Qed.

Lemma step_group s c' ev :
  superstep ext G {| session := s; stepCursor := fan_out_group |} = Completed c' ev ->
  stepCursor c' = [continue_or_finalize (should_continue (session c'))]
  /\ ev = [should_continue (session c')]
  /\ round_number (session c') = round_number s
  /\ verdict (session c') = verdict s
  /\ coaching_tips (session c') = coaching_tips s.
Proof.
  intros H. apply step_frame in H; [|unfold shapes; simpl; auto].
  destruct H as (Cur & Ev & R & VT).
  destruct (VT eq_refl) as [V T]. rewrite (R eq_refl).
  split; [|auto]. rewrite Cur.
  unfold targets, schedule. simpl.
  destruct (should_continue (session c')); reflexivity.
Qed.

Lemma Inv_step c c' ev :
  Inv c -> superstep ext G c = Completed c' ev -> Inv c'.
Proof.
  intros I H. inversion I as [s R P|s R P|s R P|s R P|s R P|s R L]; subst;
    unfold pristine, MAX_ROUNDS in *.
  - destruct (step_intake s) as (s' & E & R' & V & T).
    rewrite E in H. inversion H; subst.
    apply Inv_detector; unfold pristine, MAX_ROUNDS; [lia|].
    rewrite V, T. exact P.
  - apply step_detector in H. destruct H as (Cur & _ & R' & V & T).
    destruct c' as [s' cur]. simpl in *. subst cur.
    apply Inv_group; unfold pristine, MAX_ROUNDS; [lia|].
    rewrite V, T. exact P.
  - apply step_group in H. destruct H as (Cur & _ & R' & V & T).
    destruct c' as [s' cur]. simpl in *. subst cur.
    unfold should_continue, MAX_ROUNDS. rewrite R'.
    destruct (round_number s >=? 3) eqn:Ge; simpl.
    + apply Inv_final; unfold pristine, MAX_ROUNDS; [lia|].
      rewrite V, T. exact P.
    + apply Inv_increment; unfold pristine, MAX_ROUNDS; [lia|].
      rewrite V, T. exact P.
  - destruct (step_increment s) as (s' & E & R' & V & T).
    rewrite E in H. inversion H; subst.
    apply Inv_detector; unfold pristine, MAX_ROUNDS; [lia|].
    rewrite V, T. exact P.
  - pose proof (step_final s) as F.
    destruct (llm ext final_coach s) as [report|e].
    + destruct F as (s' & E & R' & V & T). rewrite E in H. inversion H; subst.
      apply Inv_end; unfold MAX_ROUNDS; [lia|].
      rewrite T. destruct P as [_ ->]. unfold take.
      exact (firstn_le_length 5 _).
    + rewrite F in H. discriminate.
  - apply step_frame in H; [|unfold shapes; simpl; auto 10].
    destruct H as (Cur & _ & R' & VT). destruct (VT eq_refl) as [V T].
    destruct c' as [s' cur]. simpl in *. subst cur.
    apply Inv_end; unfold MAX_ROUNDS; [rewrite (R' eq_refl); lia|].
    rewrite T. exact L.
Qed.

Lemma Inv_start topic position : Inv (start G topic position).
Proof.
  apply Inv_intake; [reflexivity|]. split; reflexivity.
Qed.

Lemma Inv_trace steps : forall c, Inv c -> Forall Inv (trace ext G steps c).
Proof.
  induction steps as [|k IH]; intros c I; simpl.
  - constructor; [exact I|constructor].
  - constructor; [exact I|].
    destruct (stepCursor c) as [|m ms]; [constructor|].
    destruct (superstep ext G c) as [c' ev|n e] eqn:St; [|constructor].
    apply IH. eapply Inv_step; eassumption.
Qed.

End Invariant.

(** ** Rounds *)

Section Rounds.

Variable ext : Externals.

Local Notation "'G'" := build_debate_graph.

(** What one step does to the round and to the distance from the end. *)
Lemma Inv_step_round c c' ev :
  Inv c -> superstep ext G c = Completed c' ev ->
  stays_or_next (round_number (session c)) (round_number (session c'))
  /\ (stepCursor c = [] \/ remaining c = S (remaining c')).
Proof.
  intros I H.
  inversion I as [s R P|s R P|s R P|s R P|s R P|s R L]; subst;
    unfold stays_or_next, remaining, MAX_ROUNDS, fan_out_group in *;
    cbn [stepCursor session].
  - destruct (step_intake ext s) as (s' & E & R' & _).
    rewrite E in H. inversion H; subst. cbn [stepCursor session].
    rewrite R', R. split; [lia|right; reflexivity].
  - apply step_detector in H. destruct H as (Cur & _ & R' & _).
    rewrite Cur, R'. unfold fan_out_group. cbn iota. split; [lia|right; lia].
  - apply step_group in H. destruct H as (Cur & _ & R' & _).
    rewrite Cur, R'. unfold should_continue, MAX_ROUNDS. rewrite R'.
    destruct (round_number s >=? 3) eqn:Ge; rewrite Z.geb_leb in Ge;
      [apply Z.leb_le in Ge|apply Z.leb_gt in Ge]; cbn [continue_or_finalize];
      (split; [lia|right; lia]).
  - destruct (step_increment ext s) as (s' & E & R' & _).
    rewrite E in H. inversion H; subst. cbn [stepCursor session].
    rewrite R'. split; [lia|right; lia].
  - pose proof (step_final ext s) as F.
    destruct (llm ext final_coach s) as [report|e].
    + destruct F as (s' & E & R' & _). rewrite E in H. inversion H; subst.
      cbn [stepCursor session]. rewrite R'. split; [lia|right; reflexivity].
    + rewrite F in H. discriminate.
  - apply step_frame in H; [|unfold shapes; simpl; auto 10].
    destruct H as (_ & _ & R' & _). rewrite (R' eq_refl). split; [lia|left; reflexivity].
Qed.

Lemma trace_head steps c : exists tl, trace ext G steps c = c :: tl.
Proof. destruct steps; simpl; eexists; reflexivity. Qed.

Lemma rounds_sorted steps : forall c,
  Inv c -> Sorted stays_or_next (rounds (trace ext G steps c)).
Proof.
  induction steps as [|k IH]; intros c I; simpl.
  - repeat constructor.
  - destruct (stepCursor c) as [|m ms]; [repeat constructor|].
    destruct (superstep ext G c) as [c' ev|n e] eqn:St; [|repeat constructor].
    pose proof (Inv_step ext _ _ _ I St) as I'.
    constructor; [apply IH; exact I'|].
    destruct (trace_head k c') as [tl ->]. simpl. constructor.
    apply (Inv_step_round _ _ _ I St).
Qed.

Lemma Inv_shapes c : Inv c -> In (stepCursor c) shapes.
Proof.
  intros I. inversion I; subst; unfold shapes; simpl; auto 10.
Qed.

Lemma remaining_positive c :
  Inv c -> stepCursor c = [] \/ (1 <= remaining c)%nat.
Proof.
  intros I.
  inversion I as [s R P|s R P|s R P|s R P|s R P|s R L]; subst;
    unfold remaining, MAX_ROUNDS, fan_out_group in *; cbn [stepCursor session];
    try (right; lia). left. reflexivity.
Qed.

(** A run of the debate graph is over within [remaining] steps. *)
Lemma run_ends steps : forall c,
  Inv c -> (remaining c <= steps)%nat ->
  match run ext G steps c with
  | Finished c' => Inv c' /\ stepCursor c' = []
  | Aborted n e c' => Inv c' /\ In n (stepCursor c')
  | Interrupted _ => False
  end.
Proof.
  induction steps as [|k IH]; intros c I Le; simpl.
  - destruct (stepCursor c) as [|m ms] eqn:Cur; [auto|].
    destruct (remaining_positive _ I) as [E|E]; [congruence|lia].
  - destruct (stepCursor c) as [|m ms] eqn:Cur; [auto|].
    destruct (superstep ext G c) as [c' ev|n e] eqn:St.
    + apply IH; [eapply Inv_step; eassumption|].
      destruct (Inv_step_round _ _ _ I St) as [_ [E|E]]; [congruence|lia].
    + split; [exact I|].
      pose proof (Inv_shapes _ I) as Sh. destruct c as [s cur]. simpl in *.
      eapply failed_member; eassumption.
Qed.

Lemma Inv_bounds c :
  Inv c ->
  0 <= round_number (session c) <= MAX_ROUNDS
  /\ (stepCursor c = [intake] \/ 1 <= round_number (session c))
  /\ (stepCursor c = [increment_round] -> round_number (session c) < MAX_ROUNDS)
  /\ (stepCursor c = [final_coach] \/ stepCursor c = [] ->
      round_number (session c) = MAX_ROUNDS)
  /\ (stepCursor c = [] \/ verdict (session c) = [])
  /\ (List.length (coaching_tips (session c)) <= 5)%nat.
Proof.
  intros I.
  inversion I as [s R P|s R P|s R P|s R P|s R P|s R L]; subst;
    unfold MAX_ROUNDS, fan_out_group in *; simpl;
    try (destruct P as [V T]; rewrite T; simpl);
    (split; [lia|]); (split; [auto; right; lia|]);
    (split; [intros K; try discriminate; lia|]);
    (split; [intros [K|K]; try discriminate; lia|]);
    (split; [auto|]); lia.
Qed.

End Rounds.

Section Runs.

Variable ext : Externals.

Local Notation "'G'" := build_debate_graph.

Lemma trace_end steps s :
  trace ext G steps {| session := s; stepCursor := [] |}
  = [ {| session := s; stepCursor := [] |} ].
Proof. destruct steps; reflexivity. Qed.

Lemma final_coach_once steps : forall c,
  Inv c -> (times_scheduled final_coach (trace ext G steps c) <= 1)%nat.
Proof.
  unfold times_scheduled.
  induction steps as [|k IH]; intros c I; simpl.
  - destruct (existsb (node_eqb final_coach) (stepCursor c)); simpl; lia.
  - destruct (existsb (node_eqb final_coach) (stepCursor c)) eqn:E.
    + inversion I as [s R P|s R P|s R P|s R P|s R P|s R L]; subst;
        simpl in E; try discriminate. simpl.
      pose proof (step_final ext s) as F.
      destruct (llm ext final_coach s) as [report|e].
      * destruct F as (s' & -> & _). rewrite trace_end. simpl. lia.
      * rewrite F. simpl. lia.
    + destruct (stepCursor c) as [|m ms]; [simpl; lia|].
      destruct (superstep ext G c) as [c' ev|n e] eqn:St; [|simpl; lia].
      apply IH. eapply Inv_step; eassumption.
Qed.

Lemma group_decision s :
  match superstep ext G {| session := s; stepCursor := fan_out_group |} with
  | Failed n e => In n fan_out_group
  | Completed c evaluated =>
      evaluated = [should_continue (session c)]
      /\ should_continue (session c) = should_continue s
      /\ round_number (session c) = round_number s
      /\ stepCursor c = [continue_or_finalize (should_continue (session c))]
  end.
Proof.
  destruct (superstep ext G {| session := s; stepCursor := fan_out_group |})
    as [c ev|n e] eqn:St.
  - apply step_group in St. destruct St as (Cur & Ev & R & _).
    split; [exact Ev|]. split; [|split; [exact R|exact Cur]].
    unfold should_continue. rewrite R. reflexivity.
  - eapply failed_member; [|exact St]. unfold shapes. simpl. auto.
Qed.

End Runs.

(** ** The claims about rounds and the branch decision *)

(** C1.  The code hooks the branch decision to every branch.  Where the
    claim has one conditional edge, at the barrier of the fan-out group,
    [build_debate_graph] calls [add_conditional_edges] three times, once for
    each member of the group, each time with [should_continue] and the same
    branch map.  It declares nothing for the members to join at: a member
    has no other out-edge, and no other node carries a conditional edge.
    Every run comes to that group as soon as the detector has completed:
    two steps in, it stands before the three members with the three edges
    attached, in round 1. *)
Theorem C1_conditional_edge_attached_to_each_member :
  forall (ext : Externals) (topic position : str),
    map source (attached build_debate_graph fan_out_group)
    = [ devil_advocate; socratic_questioner; argument_scorer ]
    /\ attached build_debate_graph fan_out_group = branches build_debate_graph
    /\ Forall (fun b => (forall s, path b s = should_continue s)
                        /\ (forall l, path_map b l = continue_or_finalize l))
              (branches build_debate_graph)
    /\ Forall (fun n => edges_from build_debate_graph n = []) fan_out_group
    /\ (forall n, In n fan_out_group \/ branches_from build_debate_graph n = [])
    /\ match run ext build_debate_graph 2 (start build_debate_graph topic position) with
       | Interrupted c =>
           stepCursor c = fan_out_group
           /\ round_number (session c) = 1
           /\ List.length (attached build_debate_graph (stepCursor c)) = 3%nat
       | Aborted n e c => n = fallacy_detector /\ stepCursor c = [fallacy_detector]
       | Finished _ => False
       end.
Proof.
  intros ext topic position.
  split; [reflexivity|]. split; [reflexivity|].
  split; [repeat constructor|].
  split; [repeat constructor|].
  split; [intros n; destruct n; simpl; auto|].
  destruct (step_intake ext (initial_state topic position)) as (s1 & E1 & R1 & _).
  change (start build_debate_graph topic position)
    with {| session := initial_state topic position; stepCursor := [intake] |}.
  cbn [run stepCursor]. rewrite E1. cbn [run stepCursor].
  destruct (superstep ext build_debate_graph
              {| session := s1; stepCursor := [fallacy_detector] |})
    as [c ev|n e] eqn:St.
  - apply step_detector in St. destruct St as (Cur & _ & R & _).
    rewrite Cur. unfold fan_out_group at 1. cbn iota.
    rewrite R, R1, Cur. repeat split.
  - split; [|reflexivity].
    assert (In n [fallacy_detector]) as M.
    { apply (failed_member ext s1 [fallacy_detector] n e); [|exact St].
      unfold shapes. simpl. auto. }
    destruct M as [<-|[]]. reflexivity.
Qed.

(** C2. [round_number] starts at 0; the entry node [intake] sets it to 1,
    so every later step (the analysis nodes among them) sees a round of at
    least 1; [increment_round] adds exactly 1; along a run it never goes
    down, moving by 0 or 1 from one checkpoint to the next; and it never
    exceeds [MAX_ROUNDS] (3), before the finalize branch or after. *)
Theorem C2_round_number_bounded :
  forall (ext : Externals) (topic position : str) (steps : nat),
    let tr := trace ext build_debate_graph steps
                (start build_debate_graph topic position) in
    round_number (initial_state topic position) = 0
    /\ entry build_debate_graph = [intake]
    /\ (forall s, exists s',
          superstep ext build_debate_graph {| session := s; stepCursor := [intake] |}
          = Completed {| session := s'; stepCursor := [fallacy_detector] |} []
          /\ round_number s' = 1)
    /\ (forall s, exists s',
          superstep ext build_debate_graph
            {| session := s; stepCursor := [increment_round] |}
          = Completed {| session := s'; stepCursor := [fallacy_detector] |} []
          /\ round_number s' = round_number s + 1)
    /\ Forall (fun c => stepCursor c = [intake] \/ 1 <= round_number (session c)) tr
    /\ Sorted stays_or_next (rounds tr)
    /\ Forall (fun r => 0 <= r <= MAX_ROUNDS) (rounds tr).
Proof.
  intros ext topic position steps tr.
  pose proof (Inv_trace ext steps _ (Inv_start topic position)) as T.
  split; [reflexivity|]. split; [reflexivity|].
  split. { intros s. destruct (step_intake ext s) as (s' & E & R & _). eauto. }
  split. { intros s. destruct (step_increment ext s) as (s' & E & R & _). eauto. }
  split. { eapply Forall_impl; [|exact T]. intros c I. apply (Inv_bounds c I). }
  split. { apply rounds_sorted. apply Inv_start. }
  unfold rounds. apply Forall_map.
  eapply Forall_impl; [|exact T]. intros c I. apply (Inv_bounds c I).
Qed.

(** C3. With [MAX_ROUNDS = 3], [should_continue] answers finalize on a
    session in round 3; the step after round 3's fan-out is [final_coach]
    with the round still 3; [increment_round] is only ever scheduled below
    round 3; and every run is over within ten steps, finished with
    [round_number = 3] unless a node failed on the way. *)
Theorem C3_round_three_finalizes :
  forall (ext : Externals) (topic position : str) (s : DebateSession) (steps : nat),
    should_continue (set_round_number s 3) = finalize
    /\ match superstep ext build_debate_graph
               {| session := set_round_number s 3; stepCursor := fan_out_group |} with
       | Failed n e => In n fan_out_group
       | Completed c _ =>
           stepCursor c = [final_coach] /\ round_number (session c) = 3
       end
    /\ Forall (fun c => stepCursor c = [increment_round] ->
                        round_number (session c) < 3)
              (trace ext build_debate_graph steps (start build_debate_graph topic position))
    /\ match run ext build_debate_graph 10 (start build_debate_graph topic position) with
       | Finished c => stepCursor c = [] /\ round_number (session c) = 3
       | Aborted n e c => In n (stepCursor c) /\ round_number (session c) <= 3
       | Interrupted _ => False
       end.
Proof.
  intros ext topic position s steps.
  split; [reflexivity|]. split.
  { pose proof (group_decision ext (set_round_number s 3)) as K.
    destruct (superstep ext build_debate_graph
                {| session := set_round_number s 3; stepCursor := fan_out_group |})
      as [c ev|n e]; [|exact K].
    destruct K as (_ & Sc & R & Cur). rewrite Cur, Sc. split; [reflexivity|exact R]. }
  split.
  { eapply Forall_impl; [|exact (Inv_trace ext steps _ (Inv_start topic position))].
    intros c I. apply (Inv_bounds c I). }
  pose proof (run_ends ext 10 _ (Inv_start topic position) (le_n 10)) as K.
  destruct (run ext build_debate_graph 10 (start build_debate_graph topic position))
    as [c|n e c|c].
  - destruct K as [I Cur]. split; [exact Cur|].
    apply (Inv_bounds c I). auto.
  - destruct K as [I Mem]. split; [exact Mem|].
    apply (Inv_bounds c I).
  - exact K.
Qed.

(** ** The claims about the final coach *)

Lemma Forall_take {A : Type} (P : A -> Prop) (n : nat) : forall l : list A,
  Forall P l -> Forall P (take n l).
Proof.
  unfold take. induction n as [|k IH]; intros l H; simpl; [constructor|].
  destruct H; constructor; auto.
Qed.

(** Every tip is a stripped line of the report that starts with one of the
    markers. *)
Lemma extract_tips_lines report :
  Forall (fun tip => startswith_any tip tip_markers = true
                     /\ exists line, In line (split_nl report) /\ tip = strip line)
         (extract_tips report).
Proof.
  unfold extract_tips. apply Forall_map. apply Forall_forall.
  intros line I. apply filter_In in I. destruct I as [I M]. eauto.
Qed.

Lemma only_final_coach_writes ext n s :
  match node_fn ext n s with
  | Ok u => writes is_verdict u = node_eqb n final_coach
            /\ writes is_coaching_tips u = node_eqb n final_coach
  | Raise _ => True
  end.
Proof.
  destruct (node_fn ext n s) as [u|e] eqn:N; [|exact I].
  destruct (node_writes _ _ _ _ N) as (_ & V & T). auto.
Qed.

(** C8, as the code has it.  [verdict] is created empty and is empty at
    every checkpoint of a run that is not the end: a non-empty verdict
    implies the terminal step.  Only [final_coach] writes it; [final_coach]
    is scheduled at most once; what it writes is the text of the model's
    report, whatever that text is; and a run that has reached the end takes
    no further step. *)
Theorem C8_verdict_written_once_by_final_coach :
  forall (ext : Externals) (topic position : str) (steps : nat),
    let tr := trace ext build_debate_graph steps
                (start build_debate_graph topic position) in
    verdict (initial_state topic position) = []
    /\ Forall (fun c => stepCursor c = [] \/ verdict (session c) = []) tr
    /\ (forall n s, match node_fn ext n s with
                    | Ok u => writes is_verdict u = node_eqb n final_coach
                    | Raise _ => True
                    end)
    /\ (times_scheduled final_coach tr <= 1)%nat
    /\ (forall s, match llm ext final_coach s with
                  | Raise e =>
                      superstep ext build_debate_graph
                        {| session := s; stepCursor := [final_coach] |}
                      = Failed final_coach e
                  | Ok report =>
                      exists s',
                        superstep ext build_debate_graph
                          {| session := s; stepCursor := [final_coach] |}
                        = Completed {| session := s'; stepCursor := [] |} []
                        /\ verdict s' = report
                  end)
    /\ (forall s k,
          run ext build_debate_graph k {| session := s; stepCursor := [] |}
          = Finished {| session := s; stepCursor := [] |}).
Proof.
  intros ext topic position steps tr.
  pose proof (Inv_trace ext steps _ (Inv_start topic position)) as T.
  split; [reflexivity|].
  split. { eapply Forall_impl; [|exact T]. intros c I. apply (Inv_bounds c I). }
  split. { intros n s. pose proof (only_final_coach_writes ext n s) as K.
           destruct (node_fn ext n s); [apply K|exact I]. }
  split. { apply final_coach_once. apply Inv_start. }
  split.
  { intros s. pose proof (step_final ext s) as F.
    destruct (llm ext final_coach s) as [report|e]; [|exact F].
    destruct F as (s' & E & _ & V & _). eauto. }
  intros s k. destruct k; reflexivity.
Qed.

(** C8, refuted as stated.  When the model returns an empty report the run
    reaches the terminal step and the verdict is still empty. *)
Lemma C8_empty_report_leaves_verdict_empty :
  exists c : Checkpoint,
    run silent build_debate_graph 10
        (start build_debate_graph (lit "topic") (lit "position"))
    = Finished c
    /\ stepCursor c = []
    /\ round_number (session c) = 3
    /\ verdict (session c) = [].
Proof.
  eexists. split; [vm_compute; reflexivity|]. repeat split.
Qed.

(** C10, as the code has it.  Only [final_coach] writes [coaching_tips],
    and it is scheduled at most once in a run.  The tips it writes are the
    first five of the stripped report lines that start with one of the
    prefixes ["•"], ["-"], ["Tip"], ["1."], ["2."], ["3."], so there are at
    most five of them, and the session's [coaching_tips] has at most five
    entries at every checkpoint of a run. *)
Theorem C10_coaching_tips_at_most_five :
  forall (ext : Externals) (topic position : str) (steps : nat),
    let tr := trace ext build_debate_graph steps
                (start build_debate_graph topic position) in
    (forall n s, match node_fn ext n s with
                 | Ok u => writes is_coaching_tips u = node_eqb n final_coach
                 | Raise _ => True
                 end)
    /\ (times_scheduled final_coach tr <= 1)%nat
    /\ (forall s, match llm ext final_coach s with
                  | Raise e => final_coach_node ext s = Raise e
                  | Ok report =>
                      exists u, final_coach_node ext s = Ok u
                                /\ In (W_coaching_tips (take 5 (extract_tips report))) u
                  end)
    /\ (forall report,
          (List.length (take 5 (extract_tips report)) <= 5)%nat
          /\ Forall (fun tip => startswith_any tip tip_markers = true
                                /\ exists line, In line (split_nl report)
                                                /\ tip = strip line)
                    (take 5 (extract_tips report)))
    /\ Forall (fun c => (List.length (coaching_tips (session c)) <= 5)%nat) tr.
Proof.
  intros ext topic position steps tr.
  pose proof (Inv_trace ext steps _ (Inv_start topic position)) as T.
  split. { intros n s. pose proof (only_final_coach_writes ext n s) as K.
           destruct (node_fn ext n s); [apply K|exact I]. }
  split. { apply final_coach_once. apply Inv_start. }
  split.
  { intros s. unfold final_coach_node.
    destruct (llm ext final_coach s) as [report|e]; simpl; [|reflexivity].
    eexists. split; [reflexivity|]. simpl. auto. }
  split.
  { intros report. split; [apply firstn_le_length|].
    apply Forall_take. apply extract_tips_lines. }
  eapply Forall_impl; [|exact T]. intros c I. apply (Inv_bounds c I).
Qed.

(** C10, refuted as stated.  A report line that starts with ["Tip"] begins
    with neither a bullet nor a numbering marker, and it is among the tips
    the final coach writes. *)
Lemma C10_tip_prefixed_line_is_kept :
  exists u : Update,
    final_coach_node sample (initial_state (lit "topic") (lit "position")) = Ok u
    /\ In (W_coaching_tips [lit "Tip: slow down"; lit "- cite your sources"]) u
    /\ begins_with_bullet_or_numbering (lit "Tip: slow down") = false
    /\ begins_with_bullet_or_numbering (lit "- cite your sources") = true
    /\ begins_with_bullet_or_numbering (lit "4. not picked up") = true.
Proof.
  eexists. split; [vm_compute; reflexivity|].
  split; [right; left; reflexivity|]. repeat split.
Qed.

(** ** The fan-in barrier *)

Lemma filter_permutation {A : Type} (f : A -> bool) (l l' : list A) :
  Permutation l l' -> Permutation (filter f l) (filter f l').
Proof.
  induction 1 as [|x l l' P IH|x y l|l l' l'' P1 IH1 P2 IH2]; simpl.
  - constructor.
  - destruct (f x); [constructor|]; exact IH.
  - destruct (f x), (f y); try apply Permutation_refl. constructor.
  - eapply Permutation_trans; eassumption.
Qed.

(** A filter that keeps at most one element does not see the order. *)
Lemma filter_at_most_one {A : Type} (f : A -> bool) (l l' : list A) :
  Permutation l l' -> (List.length (filter f l') <= 1)%nat ->
  filter f l = filter f l'.
Proof.
  intros P L. apply (filter_permutation f) in P.
  destruct (filter f l') as [|a [|b r]]; simpl in L.
  - apply Permutation_sym, Permutation_nil in P. exact P.
  - apply Permutation_sym, Permutation_length_1_inv in P. exact P.
  - lia.
Qed.

Lemma str_eqb_refl (a : str) : str_eqb a a = true.
Proof. unfold str_eqb. destruct (list_eq_dec N.eq_dec a a); congruence. Qed.

Section Store.

Variable ext : Externals.
Variable g : StateGraph.
Variable sessionId : str.

Lemma load_save st c : load (save st sessionId c) sessionId = Some c.
Proof. unfold load, save. rewrite str_eqb_refl. reflexivity. Qed.

(** The store holds the last checkpoint as soon as one step has completed. *)
Lemma drive_saves k : forall st c o st',
  drive ext g k sessionId st c = (o, st') ->
  (st' = st /\ last_checkpoint o = c) \/ load st' sessionId = Some (last_checkpoint o).
Proof.
  induction k as [|k IH]; intros st c o st' H; simpl in H.
  - destruct (stepCursor c); inversion H; subst; auto.
  - destruct (stepCursor c) as [|m ms]; [inversion H; subst; auto|].
    destruct (superstep ext g c) as [c1 ev|n e]; [|inversion H; subst; auto].
    right. destruct (IH _ _ _ _ H) as [[-> ->]|L]; [apply load_save|exact L].
Qed.

Lemma drive_interrupted k : forall st c c' st',
  drive ext g (S k) sessionId st c = (Interrupted c', st') ->
  load st' sessionId = Some c'.
Proof.
  intros st c c' st' H. simpl in H.
  destruct (stepCursor c) as [|m ms]; [discriminate|].
  destruct (superstep ext g c) as [c1 ev|n e]; [|discriminate].
  destruct (drive_saves _ _ _ _ _ H) as [[-> E]|L]; [|exact L].
  simpl in E. subst c1. apply load_save.
Qed.

(** Cut off after [k] steps and driven on from the checkpoint, a run does
    what it does when it is given the steps in one go. *)
Lemma drive_resume k : forall st c c' st',
  drive ext g k sessionId st c = (Interrupted c', st') ->
  forall n, drive ext g (k + n) sessionId st c = drive ext g n sessionId st' c'.
Proof.
  induction k as [|k IH]; intros st c c' st' H n; simpl in H.
  - destruct (stepCursor c); inversion H; subst; reflexivity.
  - simpl. destruct (stepCursor c) as [|m ms]; [discriminate|].
    destruct (superstep ext g c) as [c1 ev|x e]; [|discriminate].
    apply IH. exact H.
Qed.

(** A run that has come to its end does not change with more steps. *)
Lemma drive_stable k : forall st c,
  match fst (drive ext g k sessionId st c) with
  | Interrupted _ => True
  | _ => forall n, drive ext g (k + n) sessionId st c = drive ext g k sessionId st c
  end.
Proof.
  induction k as [|k IH]; intros st c; simpl.
  - destruct (stepCursor c) as [|m ms] eqn:Cur; simpl; [|exact I].
    intros n. destruct n; simpl; rewrite Cur; reflexivity.
  - destruct (stepCursor c) as [|m ms] eqn:Cur; simpl; [reflexivity|].
    destruct (superstep ext g c) as [c1 ev|x e]; simpl; [|reflexivity].
    apply IH.
Qed.

Lemma drive_run k : forall st c, fst (drive ext g k sessionId st c) = run ext g k c.
Proof.
  induction k as [|k IH]; intros st c; simpl.
  - destruct (stepCursor c); reflexivity.
  - destruct (stepCursor c); [reflexivity|].
    destruct (superstep ext g c); [apply IH|reflexivity].
Qed.

End Store.

(** C5. If a member of the fan-out group fails, the barrier applies none
    of the group's updates, those of the members that completed included:
    the step fails, the run stops with the failure and the node that
    failed, and the checkpoint (session and cursor) and the store are what
    they were before the step. *)
Theorem C5_failed_member_discards_the_group :
  forall (ext : Externals) (s : DebateSession) (n : node) (e : exn)
         (steps : nat) (sessionId : str) (st : Store),
    In n fan_out_group ->
    node_fn ext n s = Raise e ->
    exists n' e',
      In n' fan_out_group
      /\ node_fn ext n' s = Raise e'
      /\ fan_in ext build_debate_graph s (run_tasks ext s fan_out_group) = inl (n', e')
      /\ superstep ext build_debate_graph {| session := s; stepCursor := fan_out_group |}
         = Failed n' e'
      /\ run ext build_debate_graph (S steps)
             {| session := s; stepCursor := fan_out_group |}
         = Aborted n' e' {| session := s; stepCursor := fan_out_group |}
      /\ drive ext build_debate_graph (S steps) sessionId st
               {| session := s; stepCursor := fan_out_group |}
         = (Aborted n' e' {| session := s; stepCursor := fan_out_group |}, st).
Proof.
  intros ext s n e steps sessionId st Mem N.
  destruct (collect_failure ext s fan_out_group n e Mem N) as (n' & e' & Mem' & N' & C).
  exists n', e'. split; [exact Mem'|]. split; [exact N'|].
  assert (superstep ext build_debate_graph
            {| session := s; stepCursor := fan_out_group |} = Failed n' e') as St.
  { rewrite superstep_eq by (unfold shapes; simpl; auto). rewrite C. reflexivity. }
  split.
  { unfold fan_in.
    change (in_declared_order build_debate_graph (run_tasks ext s fan_out_group))
      with (run_tasks ext s fan_out_group).
    rewrite C. reflexivity. }
  split; [exact St|]. split.
  - simpl run. rewrite St. reflexivity.
  - simpl drive. rewrite St. reflexivity.
Qed.

(** C5 at work: the questioner's call fails in round 1, and the run stops
    on the checkpoint the detector left. *)
Lemma C5_flaky_questioner_discards_round :
  let s := session (last_checkpoint
                      (run flaky build_debate_graph 2
                         (start build_debate_graph (lit "topic") (lit "position")))) in
  In socratic_questioner fan_out_group
  /\ node_fn flaky socratic_questioner s = Raise LLMError
  /\ exists (n : node) (e : exn),
       run flaky build_debate_graph 1 {| session := s; stepCursor := fan_out_group |}
       = Aborted n e {| session := s; stepCursor := fan_out_group |}.
Proof.
  intros s.
  assert (In socratic_questioner fan_out_group) as Mem by (simpl; auto).
  assert (node_fn flaky socratic_questioner s = Raise LLMError) as N by reflexivity.
  split; [exact Mem|]. split; [exact N|].
  destruct (C5_failed_member_discards_the_group
              flaky s socratic_questioner LLMError 0 thread_id empty_store Mem N)
    as (n & e & _ & _ & _ & _ & R & _).
  exists n, e. exact R.
Defined.

(** C6. Whatever order the three members complete in, the barrier puts
    their results in the order the nodes were declared in and folds them in
    that order: when all three completed, the update of [devil_advocate] is
    applied to the snapshot, then that of [socratic_questioner], then that
    of [argument_scorer], each to the session the one before left.  So the
    fold of a fixed triple of results gives one and the same session (or one
    and the same failure) for every completion order. *)
Theorem C6_fan_in_ignores_completion_order :
  forall (ext : Externals) (s : DebateSession) (r1 r2 r3 : result Update)
         (arrivals : list Arrival),
    Permutation arrivals
      [ (devil_advocate, r1); (socratic_questioner, r2); (argument_scorer, r3) ] ->
    fan_in ext build_debate_graph s arrivals
    = fan_in ext build_debate_graph s
        [ (devil_advocate, r1); (socratic_questioner, r2); (argument_scorer, r3) ]
    /\ in_declared_order build_debate_graph arrivals
       = [ (devil_advocate, r1); (socratic_questioner, r2); (argument_scorer, r3) ]
    /\ (forall u1 u2 u3 : Update,
          r1 = Ok u1 -> r2 = Ok u2 -> r3 = Ok u3 ->
          fan_in ext build_debate_graph s arrivals
          = match apply (fresh_id ext devil_advocate s) s u1 with
            | Raise e => inl (devil_advocate, e)
            | Ok s1 =>
                match apply (fresh_id ext socratic_questioner s1) s1 u2 with
                | Raise e => inl (socratic_questioner, e)
                | Ok s2 =>
                    match apply (fresh_id ext argument_scorer s2) s2 u3 with
                    | Raise e => inl (argument_scorer, e)
                    | Ok s3 => inr s3
                    end
                end
            end).
Proof.
  intros ext s r1 r2 r3 arrivals P.
  assert (in_declared_order build_debate_graph arrivals
          = [ (devil_advocate, r1); (socratic_questioner, r2); (argument_scorer, r3) ])
    as E.
  { unfold in_declared_order.
    rewrite (flat_map_ext
               (fun n => filter (fun a : Arrival => node_eqb (fst a) n) arrivals)
               (fun n => filter (fun a : Arrival => node_eqb (fst a) n)
                           [ (devil_advocate, r1); (socratic_questioner, r2);
                             (argument_scorer, r3) ])).
    - reflexivity.
    - intros n. apply filter_at_most_one; [exact P|].
      destruct n; simpl; lia. }
  split; [|split; [exact E|]].
  - unfold fan_in. rewrite E. reflexivity.
  - intros u1 u2 u3 -> -> ->. unfold fan_in. rewrite E.
    cbn [collect fold_updates].
    destruct (apply (fresh_id ext devil_advocate s) s u1) as [s1|e1]; [|reflexivity].
    destruct (apply (fresh_id ext socratic_questioner s1) s1 u2) as [s2|e2];
      [|reflexivity].
    destruct (apply (fresh_id ext argument_scorer s2) s2 u3) as [s3|e3]; reflexivity.
Qed.

(** C6 at work: the scorer first and the devil's advocate last. *)
Lemma C6_reverse_completion_order :
  let s := set_round_number (initial_state (lit "topic") (lit "position")) 1 in
  fan_in sample build_debate_graph s
    [ (argument_scorer, argument_scorer_node sample s);
      (socratic_questioner, socratic_questioner_node sample s);
      (devil_advocate, devil_advocate_node sample s) ]
  = fan_in sample build_debate_graph s (run_tasks sample s fan_out_group).
Proof.
  intros s.
  refine (proj1 (C6_fan_in_ignores_completion_order sample s _ _ _ _ _)).
  apply Permutation_rev
    with (l := [ (argument_scorer, argument_scorer_node sample s);
                 (socratic_questioner, socratic_questioner_node sample s);
                 (devil_advocate, devil_advocate_node sample s) ]).
Defined.

(** ** Checkpoints and resuming *)

(** C9. The step loop saves the checkpoint after every completed step,
    before it looks at the next one: whenever a run stops, the store holds
    its last checkpoint, unless no step completed at all.  So a run that is
    cut off right after a save can be resumed from the store, and resumed it
    does what the uninterrupted run does: with [n] more steps it ends where
    the run given all the steps ends, and with ten steps it ends where the
    uninterrupted run of the debate graph ends, store included. *)
Theorem C9_resume_after_crash :
  forall (ext : Externals) (topic position sessionId : str) (st : Store)
         (k : nat) (c : Checkpoint) (st' : Store),
    startSession ext build_debate_graph (S k) topic position sessionId st
    = (Interrupted c, st') ->
    load st' sessionId = Some c
    /\ (forall n,
          resumeSession ext build_debate_graph n sessionId st'
          = Some (startSession ext build_debate_graph (S k + n)
                    topic position sessionId st))
    /\ resumeSession ext build_debate_graph 10 sessionId st'
       = Some (startSession ext build_debate_graph 10 topic position sessionId st)
    /\ (forall m,
          let r := startSession ext build_debate_graph m topic position sessionId st in
          (snd r = st /\ last_checkpoint (fst r) = start build_debate_graph topic position)
          \/ load (snd r) sessionId = Some (last_checkpoint (fst r))).
Proof.
  intros ext topic position sessionId st k c st' H. unfold startSession in *.
  pose proof (drive_interrupted _ _ _ _ _ _ _ _ H) as L.
  assert (forall n,
            resumeSession ext build_debate_graph n sessionId st'
            = Some (drive ext build_debate_graph (S k + n) sessionId st
                      (start build_debate_graph topic position))) as R.
  { intros n. unfold resumeSession. rewrite L.
    rewrite (drive_resume _ _ _ _ _ _ _ _ H). reflexivity. }
  split; [exact L|]. split; [exact R|]. split.
  - rewrite R. f_equal.
    pose proof (drive_stable ext build_debate_graph sessionId 10 st
                  (start build_debate_graph topic position)) as K.
    pose proof (run_ends ext 10 _ (Inv_start topic position) (le_n 10)) as E.
    rewrite <- (drive_run ext build_debate_graph sessionId 10 st) in E.
    replace (S k + 10)%nat with (10 + S k)%nat by lia.
    destruct (fst (drive ext build_debate_graph 10 sessionId st
                     (start build_debate_graph topic position)));
      [apply K|apply K|contradiction].
  - intros m.
    destruct (drive ext build_debate_graph m sessionId st
                (start build_debate_graph topic position)) as [o st''] eqn:E.
    simpl.
    destruct (drive_saves _ _ _ _ _ _ _ _ E) as [[-> ->]|Saved]; auto.
Qed.

(** C9 at work: a run of the sample session that is cut off after four
    steps, right after the save that follows [increment_round], and is then
    resumed from the store. *)
Lemma C9_resume_after_four_steps :
  let crashed := startSession sample build_debate_graph 4
                   (lit "topic") (lit "position") thread_id empty_store in
  fst crashed = Interrupted (last_checkpoint (fst crashed))
  /\ stepCursor (last_checkpoint (fst crashed)) = [fallacy_detector]
  /\ round_number (session (last_checkpoint (fst crashed))) = 2
  /\ load (snd crashed) thread_id = Some (last_checkpoint (fst crashed))
  /\ resumeSession sample build_debate_graph 10 thread_id (snd crashed)
     = Some (startSession sample build_debate_graph 10
               (lit "topic") (lit "position") thread_id empty_store).
Proof.
  intros crashed.
  assert (fst crashed = Interrupted (last_checkpoint (fst crashed))) as F
    by (vm_compute; reflexivity).
  assert (startSession sample build_debate_graph 4
            (lit "topic") (lit "position") thread_id empty_store
          = (Interrupted (last_checkpoint (fst crashed)), snd crashed)) as H.
  { rewrite <- F. apply surjective_pairing. }
  destruct (C9_resume_after_crash sample (lit "topic") (lit "position") thread_id
              empty_store 3 _ _ H) as (L & _ & R & _).
  split; [exact F|]. split; [vm_compute; reflexivity|].
  split; [vm_compute; reflexivity|].
  split; [exact L|exact R].
Defined.

(** * Further properties *)

(** ** Updates only append *)

Lemma extends_refl {A : Type} (l : list A) : extends l l.
Proof. exists []. rewrite app_nil_r. reflexivity. Qed.

Lemma extends_trans {A : Type} (l1 l2 l3 : list A) :
  extends l1 l2 -> extends l2 l3 -> extends l1 l3.
Proof.
  intros [t ->] [t' ->]. exists (t ++ t'). rewrite app_assoc. reflexivity.
Qed.

Lemma grows_refl s : grows s s.
Proof. unfold grows. repeat split; apply extends_refl. Qed.

Lemma grows_trans s1 s2 s3 : grows s1 s2 -> grows s2 s3 -> grows s1 s3.
Proof.
  unfold grows. intros (T & U & F & A & D & Q & C) (T' & U' & F' & A' & D' & Q' & C').
  repeat split; try congruence; eapply extends_trans; eassumption.
Qed.

Lemma apply_write_grows fresh s w s' :
  apply_write fresh s w = Ok s' -> grows s s'.
Proof.
  destruct w; simpl; try (destruct v; simpl); intros H; inversion H; subst;
    unfold grows, _append; simpl; repeat split;
    try apply extends_refl; eexists; reflexivity.
Qed.

Lemma apply_grows fresh u : forall s s', apply fresh s u = Ok s' -> grows s s'.
Proof.
  induction u as [|w u IH]; simpl; intros s s' H.
  - inversion H. apply grows_refl.
  - destruct (apply_write fresh s w) as [s1|e] eqn:W; simpl in H; [|discriminate].
    eapply grows_trans; [eapply apply_write_grows; exact W|apply IH; exact H].
Qed.

Section Growth.

Variable ext : Externals.
Variable g : StateGraph.

Lemma fold_updates_grows us : forall s s',
  fold_updates ext s us = inr s' -> grows s s'.
Proof.
  induction us as [|[n u] us IH]; simpl; intros s s' H.
  - inversion H. apply grows_refl.
  - destruct (apply (fresh_id ext n s) s u) as [s1|e] eqn:A; [|discriminate].
    eapply grows_trans; [eapply apply_grows; exact A|apply IH; exact H].
Qed.

Lemma superstep_grows c c' ev :
  superstep ext g c = Completed c' ev -> grows (session c) (session c').
Proof.
  unfold superstep, fan_in. intros H.
  destruct (collect (in_declared_order g (run_tasks ext (session c) (stepCursor c))))
    as [[n e]|us]; [discriminate|].
  destruct (fold_updates ext (session c) us) as [[n e]|s'] eqn:F; [discriminate|].
  inversion H; subst. simpl. eapply fold_updates_grows. exact F.
Qed.

Lemma trace_grows steps : forall c,
  Sorted grows (map session (trace ext g steps c)).
Proof.
  induction steps as [|k IH]; intros c; simpl.
  - repeat constructor.
  - destruct (stepCursor c) as [|m ms]; [repeat constructor|].
    destruct (superstep ext g c) as [c' ev|n e] eqn:St; [|repeat constructor].
    constructor; [apply IH|].
    destruct k; simpl; constructor; eapply superstep_grows; exact St.
Qed.

End Growth.

(** X1. No update takes anything away.  Whatever a node returns, merging
    it leaves [topic] and [user_position] as they were and only adds at the
    end of the five accumulated lists; so does every completed step of any
    graph, and along a run each session extends the one before it. *)
Theorem X1_updates_only_append :
  forall (ext : Externals) (g : StateGraph) (fresh : nat -> Z)
         (s : DebateSession) (u : Update) (c : Checkpoint) (steps : nat),
    match apply fresh s u with
    | Ok s' => grows s s'
    | Raise _ => True
    end
    /\ match superstep ext g c with
       | Completed c' _ => grows (session c) (session c')
       | Failed _ _ => True
       end
    /\ Sorted grows (map session (trace ext g steps c)).
Proof.
  intros ext g fresh s u c steps. split; [|split].
  - destruct (apply fresh s u) as [s'|e] eqn:A; [|exact I].
    eapply apply_grows. exact A.
  - destruct (superstep ext g c) as [c' ev|n e] eqn:St; [|exact I].
    eapply superstep_grows. exact St.
  - apply trace_grows.
Qed.

(** ** What each step adds *)

Lemma for_each_dicts l :
  for_each print_fallacy l = Ok tt -> Forall (fun f => is_dict f = true) l.
Proof.
  induction l as [|f l IH]; simpl; intros H; [constructor|].
  destruct (print_fallacy f) as [[]|e] eqn:P; simpl in H; [|discriminate].
  constructor; [|apply IH; exact H].
  destruct f; simpl in P; try discriminate. reflexivity.
Qed.

(** A value the detector can print and [_append] can add is a list of
    JSON objects. *)
Lemma printed_and_appended v existing l :
  print_fallacies v = Ok tt -> _append_json existing v = Ok l ->
  exists reports, v = PList reports /\ l = existing ++ reports
                  /\ Forall (fun f => is_dict f = true) reports.
Proof.
  intros P A. destruct v; simpl in A; try discriminate.
  inversion A; subst. exists l0. split; [reflexivity|]. split; [reflexivity|].
  unfold print_fallacies in P. destruct l0 as [|f r]; [constructor|].
  simpl truthy in P. cbv iota in P. apply for_each_dicts. exact P.
Qed.

Lemma has_key_dict_set k k' v d :
  existsb (fun kv : str * pyval => str_eqb (fst kv) k) (dict_set d k' v)
  = existsb (fun kv : str * pyval => str_eqb (fst kv) k) d || str_eqb k' k.
Proof.
  induction d as [|[k0 v0] d IH]; simpl.
  - rewrite orb_false_r. reflexivity.
  - destruct (str_eqb k0 k') eqn:E; simpl.
    + unfold str_eqb in E. destruct (list_eq_dec N.eq_dec k0 k'); [|discriminate].
      subst k0. destruct (str_eqb k' k); simpl; [reflexivity|].
      rewrite orb_false_r. reflexivity.
    + rewrite IH. rewrite orb_assoc. reflexivity.
Qed.

Lemma has_key_dict_update k d : forall base,
  existsb (fun kv : str * pyval => str_eqb (fst kv) k) base = true ->
  existsb (fun kv : str * pyval => str_eqb (fst kv) k) (dict_update base d) = true.
Proof.
  unfold dict_update. induction d as [|[k0 v0] d IH]; simpl; intros base H; [exact H|].
  apply IH. rewrite has_key_dict_set, H. reflexivity.
Qed.

Section Fields.

Variable ext : Externals.

Local Notation "'G'" := build_debate_graph.

Lemma step_intake_lists s :
  exists s',
    superstep ext G {| session := s; stepCursor := [intake] |}
    = Completed {| session := s'; stepCursor := [fallacy_detector] |} []
    /\ round_number s' = 1
    /\ logical_fallacies_found s' = logical_fallacies_found s
    /\ argument_scores s' = argument_scores s
    /\ devil_advocate_args s' = devil_advocate_args s
    /\ socratic_questions s' = socratic_questions s.
Proof.
  eexists. split; [reflexivity|]. simpl. auto 10.
Qed.

Lemma step_increment_lists s :
  exists s',
    superstep ext G {| session := s; stepCursor := [increment_round] |}
    = Completed {| session := s'; stepCursor := [fallacy_detector] |} []
    /\ round_number s' = round_number s + 1
    /\ logical_fallacies_found s' = logical_fallacies_found s
    /\ argument_scores s' = argument_scores s
    /\ devil_advocate_args s' = devil_advocate_args s
    /\ socratic_questions s' = socratic_questions s.
Proof.
  eexists. split; [reflexivity|]. simpl. auto 10.
Qed.

Lemma step_final_lists s c' ev :
  superstep ext G {| session := s; stepCursor := [final_coach] |} = Completed c' ev ->
  logical_fallacies_found (session c') = logical_fallacies_found s
  /\ argument_scores (session c') = argument_scores s
  /\ devil_advocate_args (session c') = devil_advocate_args s
  /\ socratic_questions (session c') = socratic_questions s.
Proof.
  unfold superstep, fan_in. simpl. unfold final_coach_node.
  destruct (llm ext final_coach s) as [report|e]; simpl; [|discriminate].
  intros H. inversion H; subst. simpl. auto.
Qed.

Lemma step_detector_lists s c' ev :
  superstep ext G {| session := s; stepCursor := [fallacy_detector] |} = Completed c' ev ->
  (exists reports,
     logical_fallacies_found (session c') = logical_fallacies_found s ++ reports
     /\ Forall (fun f => is_dict f = true) reports)
  /\ argument_scores (session c') = argument_scores s
  /\ devil_advocate_args (session c') = devil_advocate_args s
  /\ socratic_questions (session c') = socratic_questions s.
Proof.
  unfold superstep, fan_in. simpl. unfold fallacy_detector_node.
  destruct (llm ext fallacy_detector s) as [response|e]; simpl; [|discriminate].
  set (fallacies := match _extract_json ext response with
                    | Some v => v
                    | None => PList []
                    end).
  destruct (print_fallacies fallacies) as [[]|e] eqn:P; simpl; [|discriminate].
  destruct (_append_json (logical_fallacies_found s) fallacies) as [l|e] eqn:A; simpl;
    [|discriminate].
  intros H. inversion H; subst. simpl.
  destruct (printed_and_appended _ _ _ P A) as (reports & _ & -> & D).
  split; [exists reports; auto|auto].
Qed.

Lemma step_group_lists s c' ev :
  superstep ext G {| session := s; stepCursor := fan_out_group |} = Completed c' ev ->
  exists counter questions_text card,
    llm ext devil_advocate s = Ok counter
    /\ llm ext socratic_questioner s = Ok questions_text
    /\ devil_advocate_args (session c') = devil_advocate_args s ++ [counter]
    /\ socratic_questions (session c')
       = socratic_questions s ++ parse_questions ext questions_text
    /\ argument_scores (session c')
       = argument_scores s
         ++ [PDict (dict_update [(lit "round", PInt (round_number s))] card)]
    /\ logical_fallacies_found (session c') = logical_fallacies_found s.
Proof.
  unfold superstep, fan_in. simpl.
  unfold devil_advocate_node, socratic_questioner_node, argument_scorer_node.
  destruct (llm ext devil_advocate s) as [counter|e]; simpl; [|discriminate].
  destruct (llm ext socratic_questioner s) as [questions_text|e]; simpl; [|discriminate].
  destruct (llm ext argument_scorer s) as [response|e]; simpl; [|discriminate].
  destruct (match _extract_json ext response with
            | Some v => v
            | None => _
            end) as [| | | | |l|card]; simpl; try discriminate.
  intros H. inversion H; subst. simpl.
  exists counter, questions_text, card. repeat split; reflexivity.
Qed.

Lemma tallied_step c c' ev :
  Inv c -> tallied c -> superstep ext G c = Completed c' ev -> tallied c'.
Proof.
  intros I (LA & LS & DF & DS) H.
  unfold tallied, rounds_done in *.
  inversion I as [s R P|s R P|s R P|s R P|s R P|s R L]; subst;
    unfold fan_out_group, MAX_ROUNDS in *; cbn [stepCursor session] in *.
  - destruct (step_intake_lists s) as (s' & E & R2 & F' & A' & D' & _).
    rewrite E in H. inversion H; subst.
    cbn [stepCursor session]. rewrite F', A', D', R2. repeat split; auto; lia.
  - pose proof (step_detector ext _ _ _ H) as (Cur & _ & R2 & _).
    apply step_detector_lists in H. destruct H as ((reports & F' & DR) & A' & D' & _).
    rewrite Cur, F', A', D', R2. unfold fan_out_group. cbn iota.
    repeat split; auto. apply Forall_app. auto.
  - pose proof (step_group ext _ _ _ H) as (Cur & _ & R2 & _).
    apply step_group_lists in H.
    destruct H as (counter & qt & card & _ & _ & D' & _ & A' & F').
    rewrite Cur, F', A', D', R2. rewrite !length_app. simpl List.length.
    assert (match continue_or_finalize (should_continue (session c')) with
            | intake => 0
            | fallacy_detector | devil_advocate | socratic_questioner
            | argument_scorer => round_number s - 1
            | increment_round | final_coach => round_number s
            end = round_number s) as ->
      by (destruct (should_continue (session c')); reflexivity).
    repeat split; try lia; auto.
    apply Forall_app. split; [exact DS|]. constructor; [|constructor].
    split; [reflexivity|]. simpl. apply has_key_dict_update.
    reflexivity.
  - destruct (step_increment_lists s) as (s' & E & R2 & F' & A' & D' & _).
    rewrite E in H. inversion H; subst.
    cbn [stepCursor session]. rewrite F', A', D', R2. repeat split; auto; lia.
  - pose proof (step_final_lists _ _ _ H) as (F' & A' & D' & _).
    pose proof (step_final ext s) as Fin.
    destruct (llm ext final_coach s) as [report|e].
    + destruct Fin as (s' & E & R2 & _). rewrite E in H. inversion H; subst.
      cbn [stepCursor session] in *. rewrite F', A', D', R2.
      repeat split; auto; lia.
    + rewrite Fin in H. discriminate.
  - assert (superstep ext G {| session := s; stepCursor := [] |}
            = Completed {| session := s; stepCursor := [] |} []) as E by reflexivity.
    rewrite E in H. inversion H; subst. cbn [stepCursor session].
    repeat split; auto.
Qed.

Lemma tallied_trace steps : forall c,
  Inv c -> tallied c -> Forall tallied (trace ext G steps c).
Proof.
  induction steps as [|k IH]; intros c I T; simpl.
  - constructor; [exact T|constructor].
  - constructor; [exact T|].
    destruct (stepCursor c) as [|m ms]; [constructor|].
    destruct (superstep ext G c) as [c' ev|n e] eqn:St; [|constructor].
    apply IH; [eapply Inv_step; eassumption|eapply tallied_step; eassumption].
Qed.

Lemma tallied_start topic position : tallied (start G topic position).
Proof.
  unfold tallied. simpl. repeat split; constructor.
Qed.

(** Where a run stops, the invariants hold. *)
Lemma run_keeps steps : forall c,
  Inv c -> tallied c ->
  Inv (last_checkpoint (run ext G steps c))
  /\ tallied (last_checkpoint (run ext G steps c)).
Proof.
  induction steps as [|k IH]; intros c I T; simpl.
  - destruct (stepCursor c); simpl; auto.
  - destruct (stepCursor c) as [|m ms]; [simpl; auto|].
    destruct (superstep ext G c) as [c' ev|n e] eqn:St; [|simpl; auto].
    apply IH; [eapply Inv_step; eassumption|eapply tallied_step; eassumption].
Qed.

End Fields.

(** X2. One counter-argument and one score card per analysed round.  At
    every checkpoint of a run, [devil_advocate_args] and [argument_scores]
    have as many entries as rounds have been analysed, and a run that
    finishes ends with exactly three of each. *)
Theorem X2_one_entry_per_round :
  forall (ext : Externals) (topic position : str) (steps : nat),
    Forall (fun c =>
              Z.of_nat (List.length (devil_advocate_args (session c))) = rounds_done c
              /\ Z.of_nat (List.length (argument_scores (session c))) = rounds_done c)
           (trace ext build_debate_graph steps (start build_debate_graph topic position))
    /\ match run ext build_debate_graph 10 (start build_debate_graph topic position) with
       | Finished c =>
           List.length (devil_advocate_args (session c)) = 3%nat
           /\ List.length (argument_scores (session c)) = 3%nat
       | _ => True
       end.
Proof.
  intros ext topic position steps. split.
  - eapply Forall_impl;
      [|exact (tallied_trace ext steps _ (Inv_start topic position)
                 (tallied_start topic position))].
    intros c (A & B & _). auto.
  - pose proof (run_keeps ext 10 _ (Inv_start topic position)
                  (tallied_start topic position)) as [I T].
    pose proof (run_ends ext 10 _ (Inv_start topic position) (le_n 10)) as E.
    destruct (run ext build_debate_graph 10 (start build_debate_graph topic position))
      as [c|n e c|c]; try exact Logic.I.
    simpl in I, T. destruct E as [_ Cur]. destruct T as (A & B & _).
    unfold rounds_done in A, B. rewrite Cur in A, B.
    destruct (Inv_bounds c I) as (_ & _ & _ & R & _).
    rewrite R in A, B by auto. unfold MAX_ROUNDS in *. lia.
Qed.

(** X3. What the lists hold is what the printing and unpacking in the
    nodes let through: at every checkpoint of a run each stored fallacy
    report is a JSON object, and each score card is a JSON object with a
    ["round"] key. *)
Theorem X3_stored_reports_are_objects :
  forall (ext : Externals) (topic position : str) (steps : nat),
    Forall (fun c =>
              Forall (fun f => is_dict f = true) (logical_fallacies_found (session c))
              /\ Forall (fun v => is_dict v = true /\ has_key (lit "round") v = true)
                        (argument_scores (session c)))
           (trace ext build_debate_graph steps (start build_debate_graph topic position)).
Proof.
  intros ext topic position steps.
  eapply Forall_impl;
    [|exact (tallied_trace ext steps _ (Inv_start topic position)
               (tallied_start topic position))].
  intros c (_ & _ & F & S). auto.
Qed.

(** ** The schedule of a run *)

Section Schedule.

Variable ext : Externals.

Local Notation "'G'" := build_debate_graph.

Lemma cursor_of_remaining c : Inv c -> stepCursor c = cursor_at (remaining c).
Proof.
  intros I.
  inversion I as [s R P|s R P|s R P|s R P|s R P|s R L]; subst;
    unfold remaining, MAX_ROUNDS, fan_out_group in *; cbn [stepCursor session];
    try reflexivity;
    assert (round_number s = 1 \/ round_number s = 2 \/ round_number s = 3) as K by lia;
    destruct K as [K|[K|K]]; rewrite K; try reflexivity; lia.
Qed.

(** As far as a run gets, it follows the countdown of its steps. *)
Lemma trace_follows steps : forall c,
  Inv c ->
  extends (map stepCursor (trace ext G steps c))
          (map cursor_at (countdown (remaining c))).
Proof.
  assert (forall c, Inv c ->
            extends [stepCursor c] (map cursor_at (countdown (remaining c)))) as One.
  { intros c I. rewrite (cursor_of_remaining c I).
    destruct (remaining c); simpl; eexists; reflexivity. }
  induction steps as [|k IH]; intros c I; simpl; [apply One; exact I|].
  destruct (stepCursor c) as [|m ms] eqn:Cur; [rewrite <- Cur; apply One; exact I|].
  destruct (superstep ext G c) as [c' ev|n e] eqn:St;
    [|rewrite <- Cur; apply One; exact I].
  destruct (Inv_step_round ext _ _ _ I St) as [_ [E|E]]; [congruence|].
  destruct (IH c' (Inv_step ext _ _ _ I St)) as [t Ht].
  exists t. rewrite E. simpl. rewrite Ht. rewrite <- Cur.
  rewrite (cursor_of_remaining c I), E. reflexivity.
Qed.

Lemma trace_of_finished steps : forall c c',
  Inv c -> run ext G steps c = Finished c' ->
  map stepCursor (trace ext G steps c) = map cursor_at (countdown (remaining c)).
Proof.
  induction steps as [|k IH]; intros c c' I H; simpl in *.
  - destruct (stepCursor c) as [|m ms] eqn:Cur; [|discriminate].
    unfold remaining. rewrite Cur. reflexivity.
  - destruct (stepCursor c) as [|m ms] eqn:Cur.
    + unfold remaining. rewrite Cur. reflexivity.
    + destruct (superstep ext G c) as [c1 ev|n e] eqn:St; [|discriminate].
      destruct (Inv_step_round ext _ _ _ I St) as [_ [E|E]]; [congruence|].
      rewrite E. simpl. rewrite <- (IH c1 c' (Inv_step ext _ _ _ I St) H).
      rewrite <- Cur. rewrite (cursor_of_remaining c I), E. reflexivity.
Qed.

End Schedule.

(** X5. Every run of the debate graph follows one schedule: [intake], then
    the detector and the fan-out three times over with [increment_round] in
    between, then [final_coach].  A run that stops short has gone through a
    prefix of it, and a run that finishes has gone through all of it, in
    this order. *)
Theorem X5_one_schedule :
  forall (ext : Externals) (topic position : str) (steps : nat),
    extends (map stepCursor
               (trace ext build_debate_graph steps (start build_debate_graph topic position)))
            full_schedule
    /\ match run ext build_debate_graph steps (start build_debate_graph topic position) with
       | Finished _ =>
           map stepCursor
               (trace ext build_debate_graph steps
                  (start build_debate_graph topic position))
           = full_schedule
       | _ => True
       end.
Proof.
  intros ext topic position steps. split.
  - exact (trace_follows ext steps _ (Inv_start topic position)).
  - destruct (run ext build_debate_graph steps (start build_debate_graph topic position))
      as [c|n e c|c] eqn:R; try exact I.
    exact (trace_of_finished ext steps _ _ (Inv_start topic position) R).
Qed.

(** ** What the line filters let through *)

Lemma dropwhile_idem p s : dropwhile p (dropwhile p s) = dropwhile p s.
Proof.
  induction s as [|c r IH]; simpl; [reflexivity|].
  destruct (p c) eqn:E; [exact IH|]. simpl. rewrite E. reflexivity.
Qed.

Lemma dropwhile_head p s :
  match dropwhile p s with
  | c :: _ => p c = false
  | [] => True
  end.
Proof.
  induction s as [|c r IH]; simpl; [exact I|].
  destruct (p c) eqn:E; [exact IH|exact E].
Qed.

Lemma dropwhile_snoc p l c :
  p c = false -> dropwhile p (l ++ [c]) = dropwhile p l ++ [c].
Proof.
  intros E. induction l as [|x r IH]; simpl.
  - rewrite E. reflexivity.
  - destruct (p x); [exact IH|reflexivity].
Qed.

Lemma rstrip_cons p c t :
  p c = false -> rstrip_by p (c :: t) = c :: rstrip_by p t.
Proof.
  intros E. unfold rstrip_by. simpl.
  rewrite dropwhile_snoc by exact E. rewrite rev_app_distr. reflexivity.
Qed.

Lemma strip_idem s : strip (strip s) = strip s.
Proof.
  unfold strip, lstrip_by.
  pose proof (dropwhile_head isspace s) as H.
  destruct (dropwhile isspace s) as [|c t]; [reflexivity|].
  rewrite (rstrip_cons _ _ _ H). simpl. rewrite H.
  rewrite <- (rstrip_cons _ _ _ H). unfold rstrip_by.
  rewrite rev_involutive, dropwhile_idem. reflexivity.
Qed.

Lemma startswith_marker_nonempty :
  startswith_any [] tip_markers = false.
Proof. reflexivity. Qed.

Lemma filter_length_le {A : Type} (f : A -> bool) (l : list A) :
  (List.length (filter f l) <= List.length l)%nat.
Proof.
  induction l as [|x r IH]; simpl; [lia|]. destruct (f x); simpl; lia.
Qed.

(** X6. The questions the questioner keeps and the tips the final coach
    extracts are clean lines: none is empty, none has white space at either
    end, there are no more of them than the reply has lines, and each
    question starts with a digit or a dash. *)
Theorem X6_questions_and_tips_are_clean_lines :
  forall (ext : Externals) (text : str),
    Forall (fun q => q <> [] /\ strip q = q
                     /\ match q with
                        | c :: _ => isdigit ext c || startswith q (lit "-") = true
                        | [] => False
                        end)
           (parse_questions ext text)
    /\ (List.length (parse_questions ext text) <= List.length (split_nl text))%nat
    /\ Forall (fun t => t <> [] /\ strip t = t) (extract_tips text)
    /\ (List.length (extract_tips text) <= List.length (split_nl text))%nat.
Proof.
  intros ext text. split; [|split; [|split]].
  - unfold parse_questions. apply Forall_map. apply Forall_forall.
    intros line H. apply filter_In in H. destruct H as [_ Q].
    unfold is_question_line in Q. destruct (strip line) as [|c r] eqn:E; [discriminate|].
    split; [discriminate|]. split; [rewrite <- E; apply strip_idem|exact Q].
  - unfold parse_questions. rewrite length_map. apply filter_length_le.
  - unfold extract_tips. apply Forall_map. apply Forall_forall.
    intros line H. apply filter_In in H. destruct H as [_ Q].
    split; [|apply strip_idem].
    intros E. rewrite E in Q. discriminate.
  - unfold extract_tips. rewrite length_map. apply filter_length_le.
Qed.

(** ** The score card *)

Lemma str_eqb_true a b : str_eqb a b = true -> a = b.
Proof. unfold str_eqb. destruct (list_eq_dec N.eq_dec a b); [auto|discriminate]. Qed.

Lemma dict_get_set d k' v k default :
  dict_get (dict_set d k' v) k default
  = if str_eqb k' k then v else dict_get d k default.
Proof.
  induction d as [|[k0 v0] d IH]; simpl; [reflexivity|].
  destruct (str_eqb k0 k') eqn:E; simpl.
  - apply str_eqb_true in E. subst k0. destruct (str_eqb k' k); reflexivity.
  - rewrite IH. destruct (str_eqb k0 k) eqn:F; [|reflexivity].
    apply str_eqb_true in F. subst k0.
    destruct (str_eqb k' k) eqn:G; [|reflexivity].
    apply str_eqb_true in G. subst k'. rewrite str_eqb_refl in E. discriminate.
Qed.

Lemma dict_get_absent d k default default' :
  existsb (fun kv : str * pyval => str_eqb (fst kv) k) d = false ->
  dict_get d k default = default
  /\ dict_get d k default' = default'.
Proof.
  induction d as [|[k0 v0] d IH]; simpl; [auto|].
  destruct (str_eqb k0 k); simpl; [discriminate|exact IH].
Qed.

(** With unique keys, [{**base, **d}] reads as [d] where [d] has the key
    and as [base] elsewhere. *)
Lemma dict_get_update d k default : forall base,
  NoDup (map fst d) ->
  dict_get (dict_update base d) k default = dict_get d k (dict_get base k default).
Proof.
  unfold dict_update. induction d as [|[k0 v0] d IH]; simpl; intros base N;
    [reflexivity|].
  inversion N as [|x l NI N']; subst. rewrite IH by exact N'.
  rewrite dict_get_set. destruct (str_eqb k0 k) eqn:E; [|reflexivity].
  apply str_eqb_true in E. subst k0.
  assert (existsb (fun kv : str * pyval => str_eqb (fst kv) k) d = false) as A.
  { destruct (existsb (fun kv : str * pyval => str_eqb (fst kv) k) d) eqn:X;
      [|reflexivity].
    exfalso. apply NI. apply existsb_exists in X. destruct X as ([k1 v1] & I1 & E1).
    simpl in E1. apply str_eqb_true in E1. subst k1.
    apply in_map_iff. exists (k, v1). auto. }
  apply (dict_get_absent d k v0 v0 A).
Qed.

(** X7. The score card the scorer stores is [{"round": round_number,
    **score}]: every key of the model's score reads as the model gave it,
    the key ["round"] included, so a score that names a round overrides the
    session's round; only a score without that key gets the session's
    round. *)
Theorem X7_score_card_keeps_the_models_round :
  forall (ext : Externals) (s : DebateSession) (response : str)
         (score : list (str * pyval)) (k : str) (default : pyval),
    llm ext argument_scorer s = Ok response ->
    _extract_json ext response = Some (PDict score) ->
    NoDup (map fst score) ->
    exists card message,
      argument_scorer_node ext s
      = Ok [ W_argument_scores [PDict card]; W_dialogue_history [message] ]
      /\ dict_get card k default
         = dict_get score k
             (if str_eqb (lit "round") k then PInt (round_number s) else default).
Proof.
  intros ext s response score k default L J N.
  unfold argument_scorer_node. rewrite L. simpl. rewrite J.
  eexists. eexists. split; [reflexivity|].
  rewrite dict_get_update by exact N. reflexivity.
Qed.

(** X7 at work: the model says round 7 in round 1, and 7 is stored. *)
Lemma X7_round_seven_in_round_one :
  let s := set_round_number (initial_state (lit "topic") (lit "position")) 1 in
  exists card message,
    argument_scorer_node overriding s
    = Ok [ W_argument_scores [PDict card]; W_dialogue_history [message] ]
    /\ dict_get card (lit "round") PNone = PInt 7
    /\ round_number s = 1.
Proof.
  intros s.
  assert (NoDup (map fst [ (lit "round", PInt 7); (lit "total", PInt 31) ])) as N.
  { simpl. constructor; [|constructor; [|constructor]]; simpl.
    - intros [K|[]]. discriminate.
    - intros []. }
  destruct (X7_score_card_keeps_the_models_round
              overriding s (lit "1. Why?") _ (lit "round") PNone
              eq_refl eq_refl N) as (card & message & E & G).
  exists card, message. split; [exact E|]. split; [exact G|reflexivity].
Defined.

(** ** [_extract_json] and the markdown fences *)

Example fences_go :
  sub_fences (lit "```json" ++ [10%N] ++ lit "[1, 2]" ++ [10%N] ++ lit "```")
  = lit "[1, 2]" ++ [10%N]
  /\ sub_fences (lit "see ```jsonx``` and `` ` ``") = lit "see xand `` ` ``"
  /\ sub_fences (lit "````` a") = lit "`` a".
Proof. repeat split. Qed.


Lemma space_not_backtick c : isspace c = true -> (96 =? c)%N = false.
Proof.
  intros H. apply N.eqb_neq. intros E. subst c. discriminate.
Qed.

Lemma space_not_j c : isspace c = true -> (106 =? c)%N = false.
Proof.
  intros H. apply N.eqb_neq. intros E. subst c. discriminate.
Qed.

Lemma all_space_no_backtick ws : all_space ws -> no_backtick ws.
Proof.
  unfold all_space, no_backtick. intros H. eapply Forall_impl; [|exact H].
  intros c S E. subst c. discriminate.
Qed.

Lemma startswith_fence c x :
  (96 =? c)%N = false -> startswith (c :: x) (lit "```") = false.
Proof.
  intros H. change (lit "```") with (96%N :: lit "``").
  change (startswith (c :: x) (96%N :: lit "``"))
    with ((96 =? c)%N && startswith x (lit "``")).
  rewrite H. reflexivity.
Qed.

Lemma startswith_json w x :
  (106 =? w)%N = false -> startswith (w :: x) (lit "json") = false.
Proof.
  intros H. change (lit "json") with (106%N :: lit "son").
  change (startswith (w :: x) (106%N :: lit "son"))
    with ((106 =? w)%N && startswith x (lit "son")).
  rewrite H. reflexivity.
Qed.

Lemma startswith_nil x : startswith x [] = true.
Proof. destruct x; reflexivity. Qed.

Lemma startswith_same p x m : startswith (p ++ x) (p ++ m) = startswith x m.
Proof.
  induction p as [|a p IH]; [reflexivity|]. simpl. rewrite N.eqb_refl. exact IH.
Qed.

(** At three backticks a fence starts, and it takes ["json"] along if that
    is what follows. *)
Lemma sub_at_fence b x :
  sub_fences_from 0 b (lit "```" ++ x)
  = if startswith x (lit "json")
    then sub_fences_from 4 true x
    else sub_fences_from 0 true x.
Proof.
  assert (startswith (lit "```" ++ x) (lit "```") = true) as F.
  { rewrite <- (app_nil_r (lit "```")) at 2. rewrite startswith_same.
    apply startswith_nil. }
  assert (startswith (lit "```" ++ x) (lit "```json") = startswith x (lit "json")) as J
    by exact (startswith_same (lit "```") x (lit "json")).
  change (lit "```" ++ x) with (96%N :: (lit "``" ++ x)) in *.
  cbn [sub_fences_from]. rewrite F, J.
  replace (b && isspace 96) with false by (destruct b; reflexivity).
  destruct (startswith x (lit "json")); reflexivity.
Qed.

(** Text without backticks goes through unchanged. *)
Lemma sub_plain p r :
  no_backtick p ->
  sub_fences_from 0 false (p ++ r) = p ++ sub_fences_from 0 false r.
Proof.
  induction 1 as [|c p' C _ IH]; [reflexivity|].
  cbn [app sub_fences_from andb].
  rewrite startswith_fence by (apply N.eqb_neq; congruence).
  rewrite IH. reflexivity.
Qed.

(** The white space after a fence goes with it. *)
Lemma sub_ws ws r :
  all_space ws -> sub_fences_from 0 true (ws ++ r) = sub_fences_from 0 true r.
Proof.
  induction 1 as [|c ws' C _ IH]; [reflexivity|].
  cbn [app sub_fences_from]. rewrite C. cbn [andb]. exact IH.
Qed.

(** What follows the white space of a fence is kept from its first code
    point on. *)
Lemma sub_first c x :
  isspace c = false -> c <> 96%N ->
  sub_fences_from 0 true (c :: x) = c :: sub_fences_from 0 false x.
Proof.
  intros S C. cbn [sub_fences_from]. rewrite S. cbn [andb].
  rewrite startswith_fence by (apply N.eqb_neq; congruence).
  reflexivity.
Qed.

Lemma sub_opening_tagged x :
  sub_fences_from 0 false (lit "```json" ++ x) = sub_fences_from 0 true x.
Proof.
  change (lit "```json" ++ x) with (lit "```" ++ (lit "json" ++ x)).
  rewrite sub_at_fence.
  rewrite <- (app_nil_r (lit "json")) at 2. rewrite startswith_same, startswith_nil.
  reflexivity.
Qed.

Lemma sub_opening_bare w x :
  isspace w = true ->
  sub_fences_from 0 false (lit "```" ++ w :: x) = sub_fences_from 0 true (w :: x).
Proof.
  intros S. rewrite sub_at_fence, startswith_json by (apply space_not_j; exact S).
  reflexivity.
Qed.

Lemma sub_closing ws :
  all_space ws -> sub_fences_from 0 false (lit "```" ++ ws) = [].
Proof.
  intros S. rewrite sub_at_fence.
  assert (startswith ws (lit "json") = false) as ->.
  { destruct S as [|w ws' W _]; [reflexivity|].
    apply startswith_json, space_not_j. exact W. }
  rewrite <- (app_nil_r ws). rewrite sub_ws by exact S. reflexivity.
Qed.

Lemma dropwhile_all ws l :
  all_space ws -> dropwhile isspace (ws ++ l) = dropwhile isspace l.
Proof.
  induction 1 as [|c ws' C _ IH]; [reflexivity|]. simpl. rewrite C. exact IH.
Qed.

Lemma strip_fixed_head p :
  strip p = p ->
  match p with
  | c :: _ => isspace c = false
  | [] => True
  end.
Proof.
  unfold strip, lstrip_by. intros H.
  pose proof (dropwhile_head isspace p) as D.
  destruct (dropwhile isspace p) as [|c t].
  - rewrite <- H. exact I.
  - rewrite (rstrip_cons _ _ _ D) in H. rewrite <- H. exact D.
Qed.

Lemma strip_padded ws1 p ws2 :
  all_space ws1 -> all_space ws2 -> strip p = p -> strip (ws1 ++ p ++ ws2) = p.
Proof.
  intros S1 S2 F. pose proof (strip_fixed_head p F) as Hd.
  unfold strip, lstrip_by in *. rewrite dropwhile_all by exact S1.
  destruct p as [|c t].
  - simpl. rewrite <- (app_nil_r ws2). rewrite dropwhile_all by exact S2. reflexivity.
  - simpl in F. rewrite Hd in F. simpl. rewrite Hd.
    rewrite <- F. unfold rstrip_by.
    change (c :: t ++ ws2) with ((c :: t) ++ ws2). rewrite rev_app_distr.
    rewrite dropwhile_all; [reflexivity|].
    unfold all_space. apply Forall_rev. exact S2.
Qed.

Lemma dropwhile_stops (q : N -> bool) l :
  match l with
  | c :: _ => q c = false
  | [] => True
  end ->
  dropwhile q l = l.
Proof.
  destruct l as [|c t]; simpl; [reflexivity|]. intros ->. reflexivity.
Qed.

Lemma rstrip_backticks_noop p :
  no_backtick p -> rstrip_chars (lit "```") p = p.
Proof.
  intros H. unfold rstrip_chars, rstrip_by.
  assert (no_backtick (rev p)) as R by (apply Forall_rev; exact H).
  rewrite dropwhile_stops; [apply rev_involutive|].
  destruct R as [|c t C _]; [exact I|].
  cbn [lit existsb map list_ascii_of_string].
  assert ((c =? 96)%N = false) as E by (apply N.eqb_neq; exact C).
  change (N_of_ascii "`"%char) with 96%N. rewrite E. reflexivity.
Qed.

Lemma cleaned_payload payload ws2 :
  payload <> [] -> no_backtick payload -> strip payload = payload -> all_space ws2 ->
  strip (rstrip_chars (lit "```") (strip (payload ++ ws2))) = payload.
Proof.
  intros NE NB F S2.
  change (payload ++ ws2) with ([] ++ payload ++ ws2).
  rewrite (strip_padded [] payload ws2 (Forall_nil _) S2 F).
  rewrite rstrip_backticks_noop by exact NB. exact F.
Qed.

(** What the scanner leaves of a payload between fences. *)
Lemma sub_fenced_body payload ws1 ws2 ws3 :
  payload <> [] -> no_backtick payload -> strip payload = payload ->
  all_space ws1 -> all_space ws2 -> all_space ws3 ->
  sub_fences_from 0 true (ws1 ++ payload ++ ws2 ++ lit "```" ++ ws3) = payload ++ ws2.
Proof.
  intros NE NB F S1 S2 S3. rewrite sub_ws by exact S1.
  pose proof (strip_fixed_head payload F) as Hd.
  destruct payload as [|c t]; [congruence|].
  inversion NB as [|c' t' C NB']; subst.
  cbn [app]. rewrite sub_first by assumption.
  rewrite sub_plain by exact NB'.
  rewrite sub_plain by (apply all_space_no_backtick; exact S2).
  rewrite sub_closing by exact S3. rewrite app_nil_r. reflexivity.
Qed.

(** X8. [_extract_json] unwraps a fenced reply.  For a payload that is not
    empty, has no backtick and no white space at either end, the JSON parser
    is handed exactly the payload, whether the reply wraps it in a
    [```json] fence, in a bare [```] fence followed by white space, or in
    no fence at all, and whatever white space surrounds it. *)
Theorem X8_extract_json_unwraps_fences :
  forall (ext : Externals) (payload ws1 ws2 ws3 : str) (w : N),
    (forall t, re_sub_fences ext t = sub_fences t) ->
    payload <> [] -> no_backtick payload -> strip payload = payload ->
    all_space ws1 -> all_space ws2 -> all_space ws3 -> isspace w = true ->
    _extract_json ext (lit "```json" ++ ws1 ++ payload ++ ws2 ++ lit "```" ++ ws3)
    = json_loads ext payload
    /\ _extract_json ext (lit "```" ++ w :: ws1 ++ payload ++ ws2 ++ lit "```" ++ ws3)
       = json_loads ext payload
    /\ _extract_json ext (ws1 ++ payload ++ ws2) = json_loads ext payload.
Proof.
  intros ext payload ws1 ws2 ws3 w RE NE NB F S1 S2 S3 W.
  unfold _extract_json. rewrite !RE. unfold sub_fences.
  split; [|split].
  - rewrite sub_opening_tagged, sub_fenced_body by assumption.
    rewrite cleaned_payload by assumption. reflexivity.
  - rewrite sub_opening_bare by exact W.
    change (w :: ws1 ++ payload ++ ws2 ++ lit "```" ++ ws3)
      with ((w :: ws1) ++ payload ++ ws2 ++ lit "```" ++ ws3).
    rewrite sub_fenced_body; try assumption; [|constructor; assumption].
    rewrite cleaned_payload by assumption. reflexivity.
  - rewrite sub_plain by (apply all_space_no_backtick; exact S1).
    rewrite sub_plain by exact NB.
    rewrite <- (app_nil_r ws2) at 1.
    rewrite sub_plain by (apply all_space_no_backtick; exact S2).
    cbn [sub_fences_from]. rewrite app_nil_r.
    rewrite (strip_padded ws1 payload ws2 S1 S2 F).
    rewrite rstrip_backticks_noop by exact NB. rewrite F. reflexivity.
Qed.

(** X8 at work: an empty JSON list in a [```json] fence. *)
Lemma X8_fenced_empty_list :
  _extract_json fenced (lit "```json" ++ [10%N] ++ lit "[]" ++ [10%N] ++ lit "```" ++ [])
  = Some (PList [])
  /\ _extract_json fenced (lit "```" ++ 10%N :: [10%N] ++ lit "[]" ++ [10%N] ++ lit "```" ++ [])
     = Some (PList [])
  /\ _extract_json fenced ([10%N] ++ lit "[]" ++ [10%N]) = Some (PList []).
Proof.
  apply (X8_extract_json_unwraps_fences fenced (lit "[]") [10%N] [10%N] [] 10%N).
  - reflexivity.
  - discriminate.
  - repeat constructor; discriminate.
  - reflexivity.
  - repeat constructor.
  - repeat constructor.
  - constructor.
  - reflexivity.
Defined.

(** ** [run_session] and the report block *)

Section Report.

Variable ext : Externals.

Local Notation "'G'" := build_debate_graph.


End Report.


(** ** The opening banner *)

Lemma times_one_length c n : List.length (times [c] n) = n.
Proof.
  unfold times. induction n as [|k IH]; simpl; [reflexivity|]. rewrite IH. reflexivity.
Qed.

Lemma ljust_length width s :
  (List.length s <= width)%nat -> List.length (ljust width s) = width.
Proof.
  intros H. unfold ljust. rewrite length_app, repeat_length. lia.
Qed.

(** X10. The banner is a box of 64 columns whatever the topic.  Each of
    the seven strings [print_debate_banner] prints has exactly 64 code
    points (the blank line before the first and after the last apart): the
    topic is cut to 54 code points to make it fit, and the rounds fit as
    long as the number has at most 23 digits. *)
Theorem X10_banner_is_64_wide :
  forall (topic : str) (max_rounds : Z),
    (List.length (str_of_int max_rounds) <= 23)%nat ->
    exists top title powered rule topic_row rounds_row bottom,
      print_debate_banner topic max_rounds
      = [ 10%N :: top; title; powered; rule; topic_row; rounds_row; bottom ++ [10%N] ]
      /\ Forall (fun row => List.length row = 64%nat)
                [ top; title; powered; rule; topic_row; rounds_row; bottom ]
      /\ topic_row
         = [9553%N] ++ ljust 62 (lit " Topic: " ++ take 54 topic) ++ [9553%N].
Proof.
  intros topic max_rounds D. unfold print_debate_banner.
  eexists _, _, _, _, _, _, ([9562%N] ++ times [9552%N] 62 ++ [9565%N]).
  split; [cbn [app Nat.sub]; rewrite <- !app_assoc; reflexivity|].
  split; [|reflexivity].
  cbn [Nat.sub].
  repeat (apply Forall_cons || apply Forall_nil); try reflexivity.
  - cbn [List.length]. rewrite length_app, ljust_length; [reflexivity|].
    rewrite length_app. unfold take.
    pose proof (firstn_le_length 54 topic) as L.
    change (List.length (lit " Topic: ")) with 8%nat. lia.
  - cbn [List.length]. rewrite length_app, ljust_length; [reflexivity|].
    rewrite !length_app.
    change (List.length (lit " Rounds: ")) with 9%nat.
    change (List.length (lit " | Agents: 5 specialized nodes")) with 30%nat. lia.
Qed.

(** X10 at work: three rounds. *)
Lemma X10_banner_for_three_rounds :
  Forall (fun row => (64 <= List.length row <= 65)%nat)
         (print_debate_banner (lit "Artificial General Intelligence") 3).
Proof.
  destruct (X10_banner_is_64_wide (lit "Artificial General Intelligence") 3)
    as (top & title & powered & rule & topic_row & rounds_row & bottom & E & W & _).
  - vm_compute. lia.
  - rewrite E. inversion W as [|? ? W1 W']; subst. clear W.
    inversion W' as [|? ? W2 W'']; subst. clear W'.
    inversion W'' as [|? ? W3 W4]; subst. clear W''.
    inversion W4 as [|? ? W5 W6]; subst. clear W4.
    inversion W6 as [|? ? W7 W8]; subst. clear W6.
    inversion W8 as [|? ? W9 W10]; subst. clear W8.
    inversion W10 as [|? ? W11 _]; subst. clear W10.
    repeat (apply Forall_cons || apply Forall_nil);
      cbn [List.length]; try rewrite length_app; cbn [List.length]; lia.
Defined.

(** ** The argument database *)

(** X11. [search_argument_database] goes by the stance alone: ["both"]
    gives the PRO entries followed by the CON entries, every entry is
    tagged [[PRO]] or [[CON]], there are at most four, and any stance other
    than ["pro"], ["con"] and ["both"] (the comparison is exact) gives the
    header line and nothing else. *)
Theorem X11_search_goes_by_stance :
  forall (topic stance : str),
    search_results (lit "both") = search_results (lit "pro") ++ search_results (lit "con")
    /\ Forall (fun line => startswith line (lit "[PRO] ") = true
                           \/ startswith line (lit "[CON] ") = true)
              (search_results stance)
    /\ (List.length (search_results stance) <= 4)%nat
    /\ (if str_eqb stance (lit "pro") || str_eqb stance (lit "con")
           || str_eqb stance (lit "both")
        then (2 <= List.length (search_results stance))%nat
        else search_argument_database topic stance
             = lit "Arguments found for '" ++ topic ++ lit "':" ++ [10%N]).
Proof.
  intros topic stance. split; [reflexivity|].
  unfold search_argument_database, search_results.
  destruct (str_eqb stance (lit "pro")) eqn:P.
  { apply str_eqb_true in P. subst stance. cbn.
    split; [repeat constructor|]. split; lia. }
  destruct (str_eqb stance (lit "con")) eqn:C.
  { apply str_eqb_true in C. subst stance. cbn.
    split; [repeat constructor; right; reflexivity|]. split; lia. }
  destruct (str_eqb stance (lit "both")) eqn:B.
  { apply str_eqb_true in B. subst stance. cbn.
    split; [repeat constructor; right; reflexivity|]. split; lia. }
  cbn [orb app map List.length join_nl]. split; [constructor|]. split; [lia|].
  reflexivity.
Qed.

(** ** What a session stores of questions and tips *)

Section Clean.

Variable ext : Externals.

Local Notation "'G'" := build_debate_graph.

Lemma clean_questions text : Forall clean_line (parse_questions ext text).
Proof.
  unfold parse_questions. apply Forall_map. apply Forall_forall.
  intros line H. apply filter_In in H. destruct H as [_ Q].
  unfold is_question_line in Q. destruct (strip line) as [|c r] eqn:E; [discriminate|].
  split; [discriminate|]. rewrite <- E. apply strip_idem.
Qed.

Lemma clean_tips report : Forall clean_line (extract_tips report).
Proof.
  unfold extract_tips. apply Forall_map. apply Forall_forall.
  intros line H. apply filter_In in H. destruct H as [_ Q].
  split; [|apply strip_idem]. intros E. rewrite E in Q. discriminate.
Qed.

Lemma clean_step c c' ev :
  Inv c ->
  Forall clean_line (socratic_questions (session c)) ->
  Forall clean_line (coaching_tips (session c)) ->
  superstep ext G c = Completed c' ev ->
  Forall clean_line (socratic_questions (session c'))
  /\ Forall clean_line (coaching_tips (session c')).
Proof.
  intros I Q T H.
  inversion I as [s R P|s R P|s R P|s R P|s R P|s R L]; subst;
    cbn [stepCursor session] in *.
  - destruct (step_intake_lists ext s) as (s' & E & _ & _ & _ & _ & Q').
    destruct (step_intake ext s) as (s2 & E2 & _ & _ & T').
    rewrite E in E2. inversion E2; subst s2. rewrite E in H. inversion H; subst.
    cbn [session]. rewrite Q', T'. auto.
  - pose proof (step_detector ext _ _ _ H) as (_ & _ & _ & _ & T').
    apply step_detector_lists in H. destruct H as (_ & _ & _ & Q').
    rewrite Q', T'. auto.
  - pose proof (step_group ext _ _ _ H) as (_ & _ & _ & _ & T').
    apply step_group_lists in H.
    destruct H as (counter & qt & card & _ & _ & _ & Q' & _).
    rewrite Q', T'. split; [|exact T].
    apply Forall_app. split; [exact Q|apply clean_questions].
  - destruct (step_increment_lists ext s) as (s' & E & _ & _ & _ & _ & Q').
    destruct (step_increment ext s) as (s2 & E2 & _ & _ & T').
    rewrite E in E2. inversion E2; subst s2. rewrite E in H. inversion H; subst.
    cbn [session]. rewrite Q', T'. auto.
  - pose proof (step_final_lists ext _ _ _ H) as (_ & _ & _ & Q').
    pose proof (step_final ext s) as Fin.
    destruct (llm ext final_coach s) as [report|e].
    + destruct Fin as (s' & E & _ & _ & T'). rewrite E in H. inversion H; subst.
      cbn [session] in *. rewrite Q', T'. split; [exact Q|].
      apply Forall_app. split; [exact T|]. apply Forall_take. apply clean_tips.
    + rewrite Fin in H. discriminate.
  - assert (superstep ext G {| session := s; stepCursor := [] |}
            = Completed {| session := s; stepCursor := [] |} []) as E by reflexivity.
    rewrite E in H. inversion H; subst. auto.
Qed.

Lemma clean_trace steps : forall c,
  Inv c ->
  Forall clean_line (socratic_questions (session c)) ->
  Forall clean_line (coaching_tips (session c)) ->
  Forall (fun c' => Forall clean_line (socratic_questions (session c'))
                    /\ Forall clean_line (coaching_tips (session c')))
         (trace ext G steps c).
Proof.
  induction steps as [|k IH]; intros c I Q T; simpl.
  - constructor; [auto|constructor].
  - constructor; [auto|].
    destruct (stepCursor c) as [|m ms]; [constructor|].
    destruct (superstep ext G c) as [c' ev|n e] eqn:St; [|constructor].
    destruct (clean_step _ _ _ I Q T St) as [Q' T'].
    apply IH; [eapply Inv_step; eassumption|exact Q'|exact T'].
Qed.

End Clean.

(** X12. Whatever the model writes, a session only ever stores clean
    questions and tips: at every checkpoint of a run each entry of
    [socratic_questions] and of [coaching_tips] is a line that is not empty
    and has no white space at either end. *)
Theorem X12_stored_questions_and_tips_are_clean :
  forall (ext : Externals) (topic position : str) (steps : nat),
    Forall (fun c => Forall clean_line (socratic_questions (session c))
                     /\ Forall clean_line (coaching_tips (session c)))
           (trace ext build_debate_graph steps (start build_debate_graph topic position)).
Proof.
  intros ext topic position steps.
  apply clean_trace; [apply Inv_start|constructor|constructor].
Qed.
